(** * Dispatch core of the Telegram bot adapter (src/main.ts)

    A shallow embedding of [TelegramBotAdapter]: the reply escaping, the
    MIME classifier, the handler registry and the three event handlers
    installed by the constructor ("::bot_command", "message:file",
    "message:text").

    Conventions of the embedding.
    - A JavaScript string is a [string] (a sequence of code units); every
      character the code inspects is ASCII.
    - [Map<string, T[]>] is a [gmap string (list T)]; an array only ever
      grows by [push], which is [++ [x]].
    - An awaited call either fulfils with a value or rejects; a rejection
      is the exception caught by the event handler's [try]/[catch].
    - A reply sent from a loop is not awaited, so the loop goes on however
      it settles; the reply of a [catch] block is awaited outside any
      [try], so the event handler settles as that reply does.
    - Handlers and the collaborators (grammY, moment, path, fs, the vault)
      act on an abstract world [W]; the registry is not part of [W], so a
      handler does not register handlers while a chain runs.
    - What an event handler does to the chat and to the handlers is
      recorded as a list of [Effect]s, in program order; console logging
      is left out.
    - One event handler runs from its first statement to its last; the
      interleaving of several events at their [await] points is not
      modelled. *)

From Stdlib Require Import String Ascii List Bool Arith ZArith Lia DecimalString
  DecimalZ DecimalPos.
From stdpp Require Import base option list strings gmap.

Import ListNotations.
Local Open Scope string_scope.
Local Open Scope list_scope.

(** ** JavaScript string operations used by the adapter *)

Module JS.

(** Membership of a code unit in a regular-expression character class. *)
Definition in_class (cls : list ascii) (c : ascii) : bool :=
  existsb (Ascii.eqb c) cls.

(** [text.replace(/[cls]/g, repl)] where the replacement is computed from
    the matched character (the template may mention [$&]). *)
Fixpoint replace_class (cls : list ascii) (repl : ascii -> string)
         (text : string) : string :=
  match text with
  | EmptyString => EmptyString
  | String c rest =>
      if in_class cls c
      then repl c ++ replace_class cls repl rest
      else String c (replace_class cls repl rest)
  end.

(** [text.slice(n)] for [n >= 0]. *)
Fixpoint slice (n : nat) (text : string) : string :=
  match n, text with
  | O, _ => text
  | S _, EmptyString => EmptyString
  | S k, String _ rest => slice k rest
  end.

(** Truthiness of a value of type [string | null | undefined]. *)
Definition truthy (v : option string) : bool :=
  match v with
  | Some EmptyString => false
  | Some (String _ _) => true
  | None => false
  end.

(** The integers a number holds exactly and [String] prints digit by
    digit: those of absolute value at most [2^53 - 1]. A chat id is one
    of them. *)
Definition safe_integer (z : Z) : Prop := (Z.abs z <= 2 ^ 53 - 1)%Z.

(** [String(v)] for [v : number | undefined] where the number is a safe
    integer: its decimal digits, with a sign when negative. (Beyond the
    safe integers [String] rounds to the shortest digits that read back
    the same number, and from [1e21] on it uses exponent notation; the
    embedding does not cover those.) *)
Definition String_ (v : option Z) : string :=
  match v with
  | Some z => NilZero.string_of_int (Z.to_int z)
  | None => "undefined"
  end.

(** String concatenation [s + v] where [v : string | undefined]. *)
Definition concat_opt (s : string) (v : option string) : string :=
  match v with
  | Some t => s ++ t
  | None => s ++ "undefined"
  end.

End JS.

(** ** Reply formatter *)

(** The character class of the regular expression in [esc]:
    [/[_*[\]()~`>#+\-=|{}.!]/g]. *)
Definition esc_class : list ascii :=
  ["_"; "*"; "["; "]"; "("; ")"; "~"; "`"; ">"; "#"; "+"; "-"; "=";
   "|"; "{"; "}"; "."; "!"]%char.

(** The replacement template ['\\$&']: a backslash, then the match. *)
Definition esc_template (matched : ascii) : string :=
  String "\" (String matched EmptyString).

(** [TelegramBotAdapter.esc]. *)
Definition esc (text : string) : string :=
  JS.replace_class esc_class esc_template text.

Definition newline : string := String (ascii_of_nat 10) EmptyString.

(** The template literal [`*${this.esc(element.unit)}:*\n${this.esc(reply.answer)}`]. *)
Definition labeled_reply (unit_name answer : string) : string :=
  "*" ++ esc unit_name ++ ":*" ++ newline ++ esc answer.

(** The same literal in the earlier revision of the adapter
    (src/unnamed/part_000), which embeds the owner label unescaped. *)
Definition labeled_reply_earlier (unit_name answer : string) : string :=
  "*" ++ unit_name ++ ":*" ++ newline ++ esc answer.

(** The escaping rule in the words of the specification: every character
    of the fixed punctuation set gets one preceding backslash, every other
    character is kept. *)
Definition spec_escape_set : string := "_*[]()~`>#+-=|{}.!".

Definition spec_escape_char (c : ascii) : list ascii :=
  if existsb (Ascii.eqb c) (list_ascii_of_string spec_escape_set)
  then ["\"%char; c]
  else [c].

Definition spec_esc (text : string) : string :=
  string_of_list_ascii (flat_map spec_escape_char (list_ascii_of_string text)).

(** The reply in the words of the specification:
    [*<escaped owner>:*\n<escaped answer>]. *)
Definition spec_labeled_reply (owner answer : string) : string :=
  "*" ++ spec_esc owner ++ ":*" ++ newline ++ spec_esc answer.

(** Reading an escaped text back: a backslash in front of a character of
    the class is dropped.  Used to state that [esc] loses nothing. *)
Fixpoint unesc (text : string) : string :=
  match text with
  | EmptyString => EmptyString
  | String c rest =>
      match rest with
      | String d rest' =>
          if (Ascii.eqb c "\" && JS.in_class esc_class d)%bool
          then String d (unesc rest')
          else String c (unesc rest)
      | EmptyString => String c EmptyString
      end
  end.

(** ** MIME classifier *)

(** The payload objects of a message; only [mime_type] is read. *)
Record Media := { mime_type : option string }.
Record PhotoSize := { photo_file_id : string }.
Record VideoNote := { note_file_id : string }.

Record Message := {
  text : option string;
  caption : option string;
  document : option Media;
  animation : option Media;
  audio : option Media;
  photo : option (list PhotoSize);
  video : option Media;
  voice : option Media;
  video_note : option VideoNote
}.

(** [TelegramBotAdapter.getFileMimeType]; [None] is [undefined]. *)
Definition getFileMimeType (msg : Message) : option string :=
  match document msg with
  | Some d => mime_type d
  | None =>
  match animation msg with
  | Some a => mime_type a
  | None =>
  match audio msg with
  | Some a => mime_type a
  | None =>
  match photo msg with
  | Some _ => Some "image/jpeg"
  | None =>
  match video msg with
  | Some v => mime_type v
  | None =>
  match voice msg with
  | Some v => mime_type v
  | None =>
  match video_note msg with
  | Some _ => Some "video/mp4"
  | None => None
  end end end end end end end.

(** The classifier in the words of the specification: the payload kinds
    in their priority order, the kind that is present first decides. *)
Inductive PayloadKind :=
  KDocument | KAnimation | KAudio | KPhoto | KVideo | KVoice | KVideoNote.

Definition spec_priority : list PayloadKind :=
  [KDocument; KAnimation; KAudio; KPhoto; KVideo; KVoice; KVideoNote].

Definition spec_present (msg : Message) (k : PayloadKind) : bool :=
  match k with
  | KDocument => bool_decide (is_Some (document msg))
  | KAnimation => bool_decide (is_Some (animation msg))
  | KAudio => bool_decide (is_Some (audio msg))
  | KPhoto => bool_decide (is_Some (photo msg))
  | KVideo => bool_decide (is_Some (video msg))
  | KVoice => bool_decide (is_Some (voice msg))
  | KVideoNote => bool_decide (is_Some (video_note msg))
  end.

(** The MIME string the provider supplied for a kind, if any. *)
Definition spec_supplied (msg : Message) (k : PayloadKind) : option string :=
  match k with
  | KDocument => document msg ≫= mime_type
  | KAnimation => animation msg ≫= mime_type
  | KAudio => audio msg ≫= mime_type
  | KVideo => video msg ≫= mime_type
  | KVoice => voice msg ≫= mime_type
  | KPhoto | KVideoNote => None
  end.

Definition spec_mime_of (msg : Message) (k : PayloadKind) : option string :=
  match k with
  | KPhoto => Some "image/jpeg"
  | KVideoNote => Some "video/mp4"
  | _ => spec_supplied msg k
  end.

(** [None] is "unclassifiable". *)
Definition spec_classify (msg : Message) : option string :=
  match List.find (spec_present msg) spec_priority with
  | Some k => spec_mime_of msg k
  | None => None
  end.

(** ** Handlers, registry entries and effects *)

(** [type Reply = string | null]. *)
Definition Reply : Type := option string.

Record HandlerResult := { processed : bool; answer : Reply }.

(** How an awaited promise settles. *)
Inductive Settled (A : Type) : Type :=
| Fulfilled (value : A)
| Rejected.
Arguments Fulfilled {A} value.
Arguments Rejected {A}.

(** The vault's file handle; the vault indexes files by [path]. *)
Record TFile := { path : string }.

(** An element of a handler array: [{ handler, unit }]. *)
Record Entry (H : Type) := { handler : H; unit_name : string }.
Arguments handler {H} _.
Arguments unit_name {H} _.

(** What one event handler run does, in program order: a registered
    handler is called with a flag and settles, or [ctx.reply] is called. *)
Inductive Effect (H : Type) : Type :=
| Invoked (element : Entry H) (processed_before : bool)
          (settled : Settled HandlerResult)
| Replied (text : string) (parse_mode : option string).
Arguments Invoked {H} element processed_before settled.
Arguments Replied {H} text parse_mode.

(** The reply of the [catch] blocks, byte for byte as in src/main.ts. *)
Definition internal_error : string := "âŒ Internal error".

Definition MarkdownV2 : option string := Some "MarkdownV2".

Section Adapter.

Context {W : Type}.

(** An asynchronous call: it changes the world and settles. *)
Definition Async (A : Type) : Type := W -> W * Settled A.

Definition CommandHandler : Type := bool -> Async HandlerResult.
Definition TextHandler : Type := string -> bool -> Async HandlerResult.
Definition FileHandler : Type := TFile -> bool -> option string -> Async HandlerResult.

(** A computation of an event handler over handlers of type [H]: world
    passing, the effects issued, and the value or the thrown exception. *)
Definition Run (H A : Type) : Type := W -> W * list (Effect H) * Settled A.

Definition ret {H A} (a : A) : Run H A :=
  fun w => (w, [], Fulfilled a).

Definition throw {H A} : Run H A :=
  fun w => (w, [], Rejected).

Definition bind {H A B} (m : Run H A) (k : A -> Run H B) : Run H B :=
  fun w =>
    match m w with
    | (w1, t1, Fulfilled a) =>
        match k a w1 with
        | (w2, t2, r) => (w2, t1 ++ t2, r)
        end
    | (w1, t1, Rejected) => (w1, t1, Rejected)
    end.

(** [try { body } catch (error) { on_error }]. *)
Definition try_catch {H A} (body on_error : Run H A) : Run H A :=
  fun w =>
    match body w with
    | (w1, t1, Fulfilled a) => (w1, t1, Fulfilled a)
    | (w1, t1, Rejected) =>
        match on_error w1 with
        | (w2, t2, r) => (w2, t1 ++ t2, r)
        end
    end.

(** [await p] for a collaborator's promise. *)
Definition await {H A} (p : Async A) : Run H A :=
  fun w => match p w with (w1, r) => (w1, [], r) end.

(** A synchronous read of the world (the clock, the file system, the
    vault index). *)
Definition read {H A} (f : W -> A) : Run H A :=
  fun w => (w, [], Fulfilled (f w)).

(** [await element.handler(...)], recorded as an effect. *)
Definition await_handler {H} (call : H -> bool -> Async HandlerResult)
           (element : Entry H) (processed_before : bool) : Run H HandlerResult :=
  fun w =>
    match call (handler element) processed_before w with
    | (w1, r) => (w1, [Invoked element processed_before r], r)
    end.

(** [await ctx.reply(text)] as in the [catch] blocks: the request is
    issued and the handler waits for it; when the reply rejects, so does
    the handler, since nothing catches it there. *)
Definition await_reply {H} (reply : string -> option string -> Async unit)
           (text : string) (parse_mode : option string) : Run H unit :=
  fun w =>
    match reply text parse_mode w with
    | (w1, r) => (w1, [Replied text parse_mode], r)
    end.

(** [ctx.reply(text, { parse_mode })]: the request is issued; the loops do
    not await it. *)
Definition ctx_reply {H} (text : string) (parse_mode : option string) : Run H unit :=
  fun w => (w, [Replied text parse_mode], Fulfilled tt).

End Adapter.

Declare Scope run_scope.
Delimit Scope run_scope with run.
Notation "x <- m ;; k" := (bind m (fun x => k))
  (at level 100, m at next level, right associativity) : run_scope.
Notation "m ;; k" := (bind m (fun _ => k))
  (at level 100, right associativity) : run_scope.

Arguments Async : clear implicits.
Arguments CommandHandler : clear implicits.
Arguments TextHandler : clear implicits.
Arguments FileHandler : clear implicits.
Arguments Run : clear implicits.

(** ** The adapter *)

(** The object [ctx.getFile()] fulfils with; [download] is the method the
    files plugin installs, absent on a plain file object. *)
Record File (W : Type) := {
  file_path : option string;
  download : option (string -> Async W string)
}.
Arguments file_path {W} _.
Arguments download {W} _.

(** The grammY context of one update. [reply] is how a reply that the
    handler waits for settles. *)
Record Context (W : Type) := {
  chatId : option Z;
  message : option Message;
  msg : option Message;
  getFile : Async W (File W);
  reply : string -> option string -> Async W unit
}.
Arguments chatId {W} _.
Arguments message {W} _.
Arguments msg {W} _.
Arguments getFile {W} _.
Arguments reply {W} _ _ _.

(** The part of the Obsidian [App] the adapter calls. *)
Record App (W : Type) := {
  getFileByPath : string -> W -> option TFile
}.
Arguments getFileByPath {W} _ _ _.

Record TelegramBotAdapter (W : Type) := {
  _app : App W;
  _chat_id : string;
  _vault_path : string;
  _download_path : string;
  _command_handlers : gmap string (list (Entry (CommandHandler W)));
  _text_handlers : list (Entry (TextHandler W));
  _file_handlers : gmap string (list (Entry (FileHandler W)))
}.
Arguments _app {W} _.
Arguments _chat_id {W} _.
Arguments _vault_path {W} _.
Arguments _download_path {W} _.
Arguments _command_handlers {W} _.
Arguments _text_handlers {W} _.
Arguments _file_handlers {W} _.

Section Dispatch.

Context {W : Type}.

Local Open Scope run_scope.

(** The module-level collaborators: [moment().format('YYYY-MM-DD-HH-mm-ss-')],
    [path.join], [fs.existsSync] and [fs.mkdirSync(dir, {recursive: true})]. *)
Variable moment_format : W -> string.
Variable path_join : list string -> string.
Variable fs_existsSync : string -> W -> bool.
Variable fs_mkdirSync : string -> Async W unit.

(** The state the constructor sets up: empty registries. *)
Definition constructor (app : App W) (chat_id vault_path download_path : string)
  : TelegramBotAdapter W :=
  {| _app := app;
     _chat_id := chat_id;
     _vault_path := vault_path;
     _download_path := download_path;
     _command_handlers := ∅;
     _text_handlers := [];
     _file_handlers := ∅ |}.

(** *** Registration *)

(** The body shared by [addCommandHandler] and [addFileHandler]:
    [if (m.has(k)) { m.get(k)?.push(item); return; } m.set(k, [item])]. *)
Definition push_or_set {H} (m : gmap string (list (Entry H))) (k : string)
           (item_to_add : Entry H) : gmap string (list (Entry H)) :=
  match m !! k with
  | Some items => <[k := items ++ [item_to_add]]> m
  | None => <[k := [item_to_add]]> m
  end.

Definition addCommandHandler (self : TelegramBotAdapter W) (cmd : string)
           (h : CommandHandler W) (unit_name : string) : TelegramBotAdapter W :=
  let item_to_add := {| handler := h; unit_name := unit_name |} in
  {| _app := _app self;
     _chat_id := _chat_id self;
     _vault_path := _vault_path self;
     _download_path := _download_path self;
     _command_handlers := push_or_set (_command_handlers self) cmd item_to_add;
     _text_handlers := _text_handlers self;
     _file_handlers := _file_handlers self |}.

Definition addTextHandler (self : TelegramBotAdapter W)
           (h : TextHandler W) (unit_name : string) : TelegramBotAdapter W :=
  {| _app := _app self;
     _chat_id := _chat_id self;
     _vault_path := _vault_path self;
     _download_path := _download_path self;
     _command_handlers := _command_handlers self;
     _text_handlers := _text_handlers self ++ [{| handler := h; unit_name := unit_name |}];
     _file_handlers := _file_handlers self |}.

Definition addFileHandler (self : TelegramBotAdapter W)
           (h : FileHandler W) (unit_name : string) (mime_type : option string)
  : TelegramBotAdapter W :=
  let item_to_add := {| handler := h; unit_name := unit_name |} in
  let mime_type :=
    match mime_type with
    | Some (String _ _ as given) => given
    | _ => ""
    end in
  {| _app := _app self;
     _chat_id := _chat_id self;
     _vault_path := _vault_path self;
     _download_path := _download_path self;
     _command_handlers := _command_handlers self;
     _text_handlers := _text_handlers self;
     _file_handlers := push_or_set (_file_handlers self) mime_type item_to_add |}.

(** *** The handler loop *)

(** The [for] loop over a handler array, written three times in the source
    (inline for commands and texts, as the inner function [handle] for
    files); [call] is how the kind of event applies a handler. It returns
    the accumulated flag. *)
Fixpoint run_chain {H} (call : H -> bool -> Async W HandlerResult)
         (items : list (Entry H)) (processed_before : bool) : Run W H bool :=
  match items with
  | [] => ret processed_before
  | element :: rest =>
      reply <- await_handler call element processed_before ;;
      let processed_before := processed_before || processed reply in
      match answer reply with
      | Some (String _ _ as answer) =>
          ctx_reply (labeled_reply (unit_name element) answer) MarkdownV2
      | _ => ret tt
      end ;;
      run_chain call rest processed_before
  end.

Definition call_command (h : CommandHandler W) (processed_before : bool)
  : Async W HandlerResult :=
  h processed_before.

Definition call_text (text : string) (h : TextHandler W) (processed_before : bool)
  : Async W HandlerResult :=
  h text processed_before.

Definition call_file (obsidian_file : TFile) (caption : option string)
           (h : FileHandler W) (processed_before : bool) : Async W HandlerResult :=
  h obsidian_file processed_before caption.

(** The inner function [handle] of the "message:file" handler. *)
Definition handle (specific_handlers : list (Entry (FileHandler W)))
           (obsidian_file : TFile) (caption : option string)
           (processed_before : bool) : Run W (FileHandler W) bool :=
  run_chain (call_file obsidian_file caption) specific_handlers processed_before.

(** The guard [String(ctx.chatId) !== this._chat_id]. *)
Definition unauthorized (self : TelegramBotAdapter W) (ctx : Context W) : bool :=
  negb (String.eqb (JS.String_ (chatId ctx)) (_chat_id self)).

(** *** "::bot_command" *)

Definition on_bot_command (self : TelegramBotAdapter W) (ctx : Context W)
  : Run W (CommandHandler W) unit :=
  try_catch
    (if unauthorized self ctx then ret tt else
     let cmd := JS.slice 1 <$> (message ctx ≫= text) in
     match cmd with
     | Some (String _ _ as cmd) =>
         match _command_handlers self !! cmd with
         | None => ret tt
         | Some items =>
             run_chain call_command items false ;;
             ret tt
         end
     | _ => ret tt
     end)
    (await_reply (reply ctx) internal_error None).

(** *** "message:text"

    The filter query delivers only updates whose message has a text, which
    the source asserts with [ctx.message?.text!]; on any other context the
    embedding hands the empty string to the handlers. *)

Definition on_message_text (self : TelegramBotAdapter W) (ctx : Context W)
  : Run W (TextHandler W) unit :=
  try_catch
    (if unauthorized self ctx then ret tt else
     let text := default "" (message ctx ≫= text) in
     if Nat.eqb (List.length (_text_handlers self)) 0 then ret tt else
     run_chain (call_text text) (_text_handlers self) false ;;
     ret tt)
    (await_reply (reply ctx) internal_error None).

(** *** "message:file" *)

(** [file.file_path?.replace(/\//g, '-')]. *)
Definition hyphenate (file_path : option string) : option string :=
  JS.replace_class ["/"%char] (fun _ => "-") <$> file_path.

(** The local file name: the formatted time, then the hyphenated path. *)
Definition file_name_of (stamp : string) (file_path : option string) : string :=
  JS.concat_opt stamp (hyphenate file_path).

(** [download_path.slice(this._vault_path.length+1).replace(/\\/g,'/')]. *)
Definition path_in_vault_of (vault_path download_path : string) : string :=
  JS.replace_class ["\"%char] (fun _ => "/")
    (JS.slice (String.length vault_path + 1) download_path).

(** From [ctx.getFile()] to the vault's handle of the downloaded file. *)
Definition materialize (self : TelegramBotAdapter W) (ctx : Context W)
  : Run W (FileHandler W) TFile :=
  file <- await (getFile ctx) ;;
  match download file with
  | None => throw
  | Some download =>
      file_name <- read (fun w => file_name_of (moment_format w) (file_path file)) ;;
      let download_dir := path_join [_vault_path self; _download_path self] in
      exists_ <- read (fs_existsSync download_dir) ;;
      (if negb exists_ then await (fs_mkdirSync download_dir) else ret tt) ;;
      download_path <-
        await (download (path_join [_vault_path self; _download_path self; file_name])) ;;
      let path_in_vault := path_in_vault_of (_vault_path self) download_path in
      obsidian_file <- read (getFileByPath (_app self) path_in_vault) ;;
      match obsidian_file with
      | None => throw
      | Some obsidian_file => ret obsidian_file
      end
  end.

Definition on_message_file (self : TelegramBotAdapter W) (ctx : Context W)
  : Run W (FileHandler W) unit :=
  try_catch
    (if unauthorized self ctx then ret tt else
     match msg ctx with
     | None => ret tt
     | Some msg =>
         match getFileMimeType msg with
         | Some (String _ _ as mime_type) =>
             let specific_handlers := _file_handlers self !! mime_type in
             let all_files_handlers := _file_handlers self !! "" in
             match specific_handlers, all_files_handlers with
             | None, None => ret tt
             | _, _ =>
                 let caption := message ctx ≫= caption in
                 obsidian_file <- materialize self ctx ;;
                 let processed_before := false in
                 processed_before <-
                   match specific_handlers with
                   | Some specific_handlers =>
                       handle specific_handlers obsidian_file caption processed_before
                   | None => ret processed_before
                   end ;;
                 processed_before <-
                   match all_files_handlers with
                   | Some all_files_handlers =>
                       handle all_files_handlers obsidian_file caption processed_before
                   | None => ret processed_before
                   end ;;
                 ret tt
             end
         | _ => ret tt
         end
     end)
    (await_reply (reply ctx) internal_error None).

End Dispatch.

(** ** The adapter as a state machine

    During a session the adapter receives registrations from its consumers
    and updates from the bot; only registrations change it. *)

Inductive Input (W : Type) : Type :=
| Add_command (cmd : string) (h : CommandHandler W) (unit_name : string)
| Add_text (h : TextHandler W) (unit_name : string)
| Add_file (h : FileHandler W) (unit_name : string) (mime_type : option string)
| Bot_command (ctx : Context W)
| Message_file (ctx : Context W)
| Message_text (ctx : Context W).
Arguments Add_command {W} cmd h unit_name.
Arguments Add_text {W} h unit_name.
Arguments Add_file {W} h unit_name mime_type.
Arguments Bot_command {W} ctx.
Arguments Message_file {W} ctx.
Arguments Message_text {W} ctx.

Inductive Output (W : Type) : Type :=
| Registered
| Command_effects (effects : list (Effect (CommandHandler W)))
| File_effects (effects : list (Effect (FileHandler W)))
| Text_effects (effects : list (Effect (TextHandler W))).
Arguments Registered {W}.
Arguments Command_effects {W} effects.
Arguments File_effects {W} effects.
Arguments Text_effects {W} effects.

Section Session.

Context {W : Type}.
Variable moment_format : W -> string.
Variable path_join : list string -> string.
Variable fs_existsSync : string -> W -> bool.
Variable fs_mkdirSync : string -> Async W unit.

Definition step (self : TelegramBotAdapter W) (i : Input W) (w : W)
  : TelegramBotAdapter W * W * Output W :=
  match i with
  | Add_command cmd h unit_name =>
      (addCommandHandler self cmd h unit_name, w, Registered)
  | Add_text h unit_name =>
      (addTextHandler self h unit_name, w, Registered)
  | Add_file h unit_name mime_type =>
      (addFileHandler self h unit_name mime_type, w, Registered)
  | Bot_command ctx =>
      match on_bot_command self ctx w with
      | (w1, effects, _) => (self, w1, Command_effects effects)
      end
  | Message_file ctx =>
      match on_message_file moment_format path_join fs_existsSync fs_mkdirSync
                            self ctx w with
      | (w1, effects, _) => (self, w1, File_effects effects)
      end
  | Message_text ctx =>
      match on_message_text self ctx w with
      | (w1, effects, _) => (self, w1, Text_effects effects)
      end
  end.

Fixpoint session (self : TelegramBotAdapter W) (inputs : list (Input W)) (w : W)
  : TelegramBotAdapter W * W * list (Output W) :=
  match inputs with
  | [] => (self, w, [])
  | i :: rest =>
      match step self i w with
      | (self1, w1, o) =>
          match session self1 rest w1 with
          | (self2, w2, os) => (self2, w2, o :: os)
          end
      end
  end.

End Session.

(** ** Reading a list of effects *)

(** One handler call: who was called, with which flag, how it settled. *)
Record Call (H : Type) := {
  callee : Entry H;
  flag : bool;
  outcome : Settled HandlerResult
}.
Arguments callee {H} _.
Arguments flag {H} _.
Arguments outcome {H} _.

Definition calls {H} (effects : list (Effect H)) : list (Call H) :=
  flat_map (fun e =>
    match e with
    | Invoked element processed_before settled =>
        [{| callee := element; flag := processed_before; outcome := settled |}]
    | Replied _ _ => []
    end) effects.

Definition replies {H} (effects : list (Effect H)) : list (string * option string) :=
  flat_map (fun e =>
    match e with
    | Invoked _ _ _ => []
    | Replied text parse_mode => [(text, parse_mode)]
    end) effects.

(** The [processed] field a call returned; a call that threw returned none. *)
Definition claimed {H} (c : Call H) : bool :=
  match outcome c with
  | Fulfilled reply => processed reply
  | Rejected => false
  end.

Definition threw {H} (c : Call H) : bool :=
  match outcome c with
  | Fulfilled _ => false
  | Rejected => true
  end.

(** The effects of a run. *)
Definition effects_of {W H A} (res : W * list (Effect H) * Settled A) : list (Effect H) :=
  snd (fst res).

Definition world_of {W H A} (res : W * list (Effect H) * Settled A) : W :=
  fst (fst res).

(** The labeled reply a settled call is answered with, if any. *)
Definition reply_to {H} (c : Call H) : list (string * option string) :=
  match outcome c with
  | Fulfilled reply =>
      if JS.truthy (answer reply)
      then [(labeled_reply (unit_name (callee c)) (default "" (answer reply)), MarkdownV2)]
      else []
  | Rejected => []
  end.

(** The flag every call of a chain must have received: the starting flag
    or-ed with the [processed] fields of all earlier calls. *)
Definition accumulates {H} (start : bool) (cs : list (Call H)) : Prop :=
  forall k c, cs !! k = Some c -> flag c = start || existsb claimed (take k cs).

(** The chains a file event of MIME type [mime_type] runs, one after the
    other: the specific one, then the wildcard one. *)
Definition file_chains {W} (self : TelegramBotAdapter W) (mime_type : string)
  : list (Entry (FileHandler W)) :=
  default [] (_file_handlers self !! mime_type) ++ default [] (_file_handlers self !! "").

(** ** Notions used to state the properties *)

(** The [ctx.reply] effects the loop issues for one fulfilled call. *)
Definition answer_effects {H} (element : Entry H) (reply : HandlerResult) : list (Effect H) :=
  match answer reply with
  | Some (String _ _ as answer) =>
      [Replied (labeled_reply (unit_name element) answer) MarkdownV2]
  | _ => []
  end.

(** The [try]/[catch] of an event handler around a chain. *)
Definition boundary {W H} (ctx : Context W) (chain : Run W H bool) : Run W H unit :=
  try_catch (bind chain (fun _ => ret tt)) (await_reply (reply ctx) internal_error None).

(** The handler array a command update resolves to, if any. *)
Definition command_chain {W} (self : TelegramBotAdapter W) (ctx : Context W)
  : option (list (Entry (CommandHandler W))) :=
  if unauthorized self ctx then None else
  match JS.slice 1 <$> (message ctx ≫= text) with
  | Some (String _ _ as cmd) => _command_handlers self !! cmd
  | _ => None
  end.

(** The handler array a text update resolves to, if any. *)
Definition text_chain {W} (self : TelegramBotAdapter W) (ctx : Context W)
  : option (list (Entry (TextHandler W))) :=
  if unauthorized self ctx then None else
  match _text_handlers self with
  | [] => None
  | items => Some items
  end.

(** The MIME type under which a file update is dispatched, if it is. *)
Definition file_key {W} (self : TelegramBotAdapter W) (ctx : Context W) : option string :=
  if unauthorized self ctx then None else
  match msg ctx ≫= getFileMimeType with
  | Some (String _ _ as mime_type) =>
      match _file_handlers self !! mime_type, _file_handlers self !! "" with
      | None, None => None
      | _, _ => Some mime_type
      end
  | _ => None
  end.


(** The replies of an event: one per call that returned an answer that is
    neither null nor empty, labeled with the owner of the handler called,
    in call order, followed by at most one internal-error reply. *)
Definition replies_follow_calls {H} (effects : list (Effect H)) : Prop :=
  exists tail,
    replies effects = flat_map reply_to (calls effects) ++ tail /\
    (tail = [] \/ tail = [(internal_error, None)]).


(** The internal-error replies among the replies of an event. *)
Definition error_replies {H} (effects : list (Effect H)) : list (string * option string) :=
  List.filter (fun r => bool_decide (r = (internal_error, None))) (replies effects).

(** An event over the array [items] in which a handler threw: the effects
    end with the call that threw and one internal-error reply; no earlier
    call threw; the handlers called are the entries of [items] up to and
    including the one that threw; and there is exactly one internal-error
    reply. *)
Definition aborts_once {H} (items : list (Entry H)) (effects : list (Effect H)) : Prop :=
  exists before element processed_before,
    effects = before ++ [Invoked element processed_before Rejected;
                         Replied internal_error None] /\
    existsb threw (calls before) = false /\
    items !! length (calls before) = Some element /\
    map callee (calls effects) = take (S (length (calls before))) items /\
    length (error_replies effects) = 1.

(** The run [res] of an event handler ended in its [catch] block: it
    left the world and settled the way the awaited internal-error reply
    did, from the world [thrown_at] in which the exception was caught. So
    the exception is contained when that reply is delivered, and the
    handler rejects when it is not. *)
Definition settles_with_error_reply {W H} (ctx : Context W)
           (res : W * list (Effect H) * Settled unit) : Prop :=
  exists thrown_at,
    world_of res = fst (reply ctx internal_error None thrown_at) /\
    snd res = snd (reply ctx internal_error None thrown_at).

(** The run [res] of an event handler over the array [items] went
    through: every handler of [items] was called, in order, each answer
    was replied to, there is no internal-error reply, and the handler
    fulfilled. *)
Definition succeeds {W H} (items : list (Entry H))
           (res : W * list (Effect H) * Settled unit) : Prop :=
  map callee (calls (effects_of res)) = items /\
  replies (effects_of res) = flat_map reply_to (calls (effects_of res)) /\
  error_replies (effects_of res) = [] /\
  snd res = Fulfilled tt.

Definition is_update {W} (i : Input W) : bool :=
  match i with
  | Bot_command _ | Message_file _ | Message_text _ => true
  | _ => false
  end.

(** Whether a character occurs in a text. *)
Fixpoint occurs (c : ascii) (s : string) : bool :=
  match s with
  | EmptyString => false
  | String d rest => Ascii.eqb c d || occurs c rest
  end.

Definition slashes_to_hyphens : string -> string :=
  JS.replace_class ["/"%char] (fun _ => "-").

Definition backslashes_to_slashes : string -> string :=
  JS.replace_class ["\"%char] (fun _ => "/").

(** ** A concrete session, used to exercise the statements *)

Module Demo.

(** The world is the log the demo handlers and collaborators write. *)
Definition World : Type := list string.

Definition answering (name : string) (result : HandlerResult) : CommandHandler World :=
  fun _ w => (w ++ [name], Fulfilled result).

Definition throwing : CommandHandler World :=
  fun _ w => (w, Rejected).

Definition text_answering (name : string) (result : HandlerResult) : TextHandler World :=
  fun _ _ w => (w ++ [name], Fulfilled result).

Definition file_answering (name : string) (result : HandlerResult) : FileHandler World :=
  fun _ _ _ w => (w ++ [name], Fulfilled result).

Definition file_throwing : FileHandler World :=
  fun _ _ _ w => (w, Rejected).

Definition text_throwing : TextHandler World :=
  fun _ _ w => (w, Rejected).

Definition silent_claim : HandlerResult := {| processed := true; answer := None |}.
Definition says (a : string) : HandlerResult := {| processed := false; answer := Some a |}.

Definition app : App World :=
  {| getFileByPath := fun p _ => Some {| path := p |} |}.

Definition adapter : TelegramBotAdapter World :=
  constructor app "42" "/vault" "inbox".

Definition text_message (t : string) : Message :=
  {| text := Some t; caption := None; document := None; animation := None;
     audio := None; photo := None; video := None; voice := None;
     video_note := None |}.

Definition document_message (mime : option string) : Message :=
  {| text := None; caption := Some "see attached";
     document := Some {| mime_type := mime |}; animation := None;
     audio := None; photo := None; video := None; voice := None;
     video_note := None |}.

Definition remote_file (p : string) : File World :=
  {| file_path := Some p;
     download := Some (fun target w => (w ++ [String.append "download " target], Fulfilled target)) |}.

Definition text_update (chat : Z) (t : string) : Context World :=
  {| chatId := Some chat;
     message := Some (text_message t);
     msg := Some (text_message t);
     getFile := fun w => (w, Rejected);
     reply := fun _ _ w => (w, Fulfilled tt) |}.

Definition file_update (chat : Z) (mime : option string) (p : string) : Context World :=
  {| chatId := Some chat;
     message := Some (document_message mime);
     msg := Some (document_message mime);
     getFile := fun w => (w, Fulfilled (remote_file p));
     reply := fun _ _ w => (w, Fulfilled tt) |}.

Definition moment_format : World -> string := fun _ => "2024-01-01-00-00-00-".
Definition path_join : list string -> string := String.concat "/".
Definition fs_existsSync : string -> World -> bool := fun _ _ => true.
Definition fs_mkdirSync : string -> Async World unit := fun _ w => (w, Fulfilled tt).

End Demo.

(** ** Further code of src/main.ts

    The rest of the adapter ([sendMessage]), the Node.js API client's
    request address with the [fetch] override that routes to it, and the
    parts of the plugin that decide something: token validation, the
    token steps of [onload] and [resetBot], the start-up retry loop and
    the "/start" command. *)

Module JSText.

(** [s.trimStart()], [s.trimEnd()] and [s.trim()]; [white] tells which
    code units are WhiteSpace or LineTerminator. *)
Fixpoint trimStart (white : ascii -> bool) (s : string) : string :=
  match s with
  | EmptyString => EmptyString
  | String c rest => if white c then trimStart white rest else s
  end.

Fixpoint trimEnd (white : ascii -> bool) (s : string) : string :=
  match s with
  | EmptyString => EmptyString
  | String c rest =>
      match trimEnd white rest with
      | EmptyString => if white c then EmptyString else String c EmptyString
      | kept => String c kept
      end
  end.

Definition trim (white : ascii -> bool) (s : string) : string :=
  trimEnd white (trimStart white s).

(** [s.split(sep)] for a one-character separator: never the empty array. *)
Fixpoint split (sep : ascii) (s : string) : list string :=
  match s with
  | EmptyString => [EmptyString]
  | String c rest =>
      if Ascii.eqb c sep then EmptyString :: split sep rest
      else
        match split sep rest with
        | first :: others => String c first :: others
        | [] => [String c EmptyString]
        end
  end.

(** [array.pop()]: the last element, [undefined] on the empty array. *)
Definition pop (parts : list string) : option string := List.last (map Some parts) None.

(** [v || ''] for [v : string | undefined]. *)
Definition or_empty (v : option string) : string := default "" v.

(** [s.includes(sub)]. *)
Fixpoint includes (sub s : string) : bool :=
  if String.prefix sub s then true
  else
    match s with
    | EmptyString => false
    | String _ rest => includes sub rest
    end.

End JSText.

(** *** [NodeTelegramAPI] and the [fetch] override *)

(** The address [makeRequest] builds:
    [`https://api.telegram.org/bot${this.token}/${method}`]. *)
Definition request_url (token method : string) : string :=
  "https://api.telegram.org/bot" ++ token ++ "/" ++ method.

(** What the [fetch] override of [resetBot] does with an address: for an
    address that mentions the API host, the method name it passes to
    [makeRequest] ([url.split('/').pop() || '']); otherwise [None], the
    request is left to [fetch]. *)
Definition fetch_override (url : string) : option string :=
  if JSText.includes "api.telegram.org" url
  then Some (JSText.or_empty (JSText.pop (JSText.split "/" url)))
  else None.

(** *** [TelegramBotAdapter.sendMessage] *)

(** A delivery attempt of [sendMessage]: through the Node.js client or
    through the bot's own API, with the arguments passed. *)
Inductive Delivery : Type :=
| Via_node (chat_id text : string) (parse_mode : option string)
| Via_bot (chat_id text : string) (parse_mode : option string).

Section SendMessage.

Context {W : Type}.

(** [this._nodeAPI.sendMessage] and [this._bot.api.sendMessage]. *)
Variable nodeAPI_sendMessage : string -> string -> option string -> Async W unit.
Variable bot_api_sendMessage : string -> string -> option string -> Async W unit.

Definition sendMessage (self : TelegramBotAdapter W) (text : string)
  : W -> W * list Delivery * Settled unit :=
  fun w =>
    match nodeAPI_sendMessage (_chat_id self) (esc text) MarkdownV2 w with
    | (w1, Fulfilled _) =>
        (w1, [Via_node (_chat_id self) (esc text) MarkdownV2], Fulfilled tt)
    | (w1, Rejected) =>
        match bot_api_sendMessage (_chat_id self) (esc text) MarkdownV2 w1 with
        | (w2, r) =>
            (w2, [Via_node (_chat_id self) (esc text) MarkdownV2;
                  Via_bot (_chat_id self) (esc text) MarkdownV2], r)
        end
    end.

End SendMessage.

(** *** The plugin: settings and token validation *)

Module Settings.

Record TelegramBotPluginSettings := {
  botToken : string;
  chatId : string;
  downloadPath : string
}.

End Settings.

Definition DEFAULT_SETTINGS : Settings.TelegramBotPluginSettings :=
  {| Settings.botToken := ""; Settings.chatId := ""; Settings.downloadPath := "" |}.

(** The classes of [tokenRegex]: [\d] and [[A-Za-z0-9_-]]. *)
Definition is_digit (c : ascii) : bool :=
  let n := nat_of_ascii c in Nat.leb 48 n && Nat.leb n 57.

Definition is_token_char (c : ascii) : bool :=
  let n := nat_of_ascii c in
  (Nat.leb 65 n && Nat.leb n 90) || (Nat.leb 97 n && Nat.leb n 122) ||
  (Nat.leb 48 n && Nat.leb n 57) || Ascii.eqb c "_" || Ascii.eqb c "-".

Fixpoint all_chars (p : ascii -> bool) (s : string) : bool :=
  match s with
  | EmptyString => true
  | String c rest => p c && all_chars p rest
  end.

(** The longest run of digits at the front of a text, and what follows. *)
Fixpoint span_digits (s : string) : string * string :=
  match s with
  | String c rest =>
      if is_digit c
      then match span_digits rest with (ds, after) => (String c ds, after) end
      else (EmptyString, s)
  | EmptyString => (EmptyString, EmptyString)
  end.

(** [/^\d+:[A-Za-z0-9_-]{34,35}$/.test(s)], as a scan from the left. *)
Definition tokenRegex_test (s : string) : bool :=
  match span_digits s with
  | (String _ _, String sep body) =>
      Ascii.eqb sep ":" && all_chars is_token_char body &&
      (Nat.eqb (String.length body) 34 || Nat.eqb (String.length body) 35)
  | _ => false
  end.

(** The language of [tokenRegex], read off the expression: one or more
    digits, a colon, then 34 or 35 characters of the class. *)
Definition tokenRegex_language (s : string) : Prop :=
  exists bot_id bot_token,
    s = String.append bot_id (String ":" bot_token) /\
    bot_id <> "" /\
    all_chars is_digit bot_id = true /\
    all_chars is_token_char bot_token = true /\
    (String.length bot_token = 34 \/ String.length bot_token = 35).

Section Plugin.

Context {W : Type}.

(** Which code units [String.prototype.trim] removes. *)
Variable white : ascii -> bool.

(** [TelegramBotPlugin.isValidBotToken]. *)
Definition isValidBotToken (token : string) : bool :=
  match token with
  | EmptyString => false
  | _ =>
      let trimmedToken := JSText.trim white token in
      tokenRegex_test trimmedToken
  end.

(** How far [onload] gets: it stops on an empty token, stops on a token
    of the wrong format, or goes on to [resetBot]. *)
Inductive Onload := Token_not_set | Token_format_invalid | Calls_resetBot.

Definition onload (settings : Settings.TelegramBotPluginSettings) : Onload :=
  match Settings.botToken settings with
  | EmptyString => Token_not_set
  | _ =>
      if negb (isValidBotToken (Settings.botToken settings))
      then Token_format_invalid
      else Calls_resetBot
  end.

Variable saveSettings : Settings.TelegramBotPluginSettings -> Async W unit.

(** How the token steps of [resetBot] end: the awaited [saveSettings]
    rejected, which [resetBot] does not catch, so it throws before the
    token is validated; the token is not valid and [resetBot] returns; or
    the token is valid and [resetBot] goes on to create the bot. *)
Inductive TokenStep := Save_failed | Token_rejected | Token_accepted.

(** The token steps at the start of [resetBot]: the token is trimmed and,
    if that changed it, stored in the settings, which are then saved;
    after that the stored token is validated. The result is the settings
    in memory, the world, and how the steps ended. *)
Definition resetBot_token (settings : Settings.TelegramBotPluginSettings) (w : W)
  : Settings.TelegramBotPluginSettings * W * TokenStep :=
  let trimmedToken := JSText.trim white (Settings.botToken settings) in
  if negb (String.eqb trimmedToken (Settings.botToken settings))
  then
    let settings :=
      {| Settings.botToken := trimmedToken;
         Settings.chatId := Settings.chatId settings;
         Settings.downloadPath := Settings.downloadPath settings |} in
    match saveSettings settings w with
    | (w1, Fulfilled _) =>
        if negb (isValidBotToken (Settings.botToken settings))
        then (settings, w1, Token_rejected)
        else (settings, w1, Token_accepted)
    | (w1, Rejected) => (settings, w1, Save_failed)
    end
  else
    if negb (isValidBotToken (Settings.botToken settings))
    then (settings, w, Token_rejected)
    else (settings, w, Token_accepted).

(** *** The start-up retry loop of [resetBot] *)

(** How [this._bot.start()] can fail: with a [GrammyError] of code 409, or
    with anything else. *)
Inductive StartError := Conflict_409 | Other_error.

Inductive RetryEffect := Start_attempt | Waited (ms : nat).

(** How the loop ends: [break] after a start, the error thrown after the
    last conflict, the start error thrown on, or the loop condition found
    false. *)
Inductive RetryResult := Bot_started | Gave_up | Start_failed | Not_entered.

Definition maxRetries : nat := 3.

Variable bot_start : W -> W * option StartError.
Variable sleep : nat -> W -> W.

(** The [while (retryCount < maxRetries)] loop; [None] when [fuel]
    iterations did not finish it. *)
Fixpoint start_loop (fuel retryCount : nat) (w : W)
  : W * list RetryEffect * option RetryResult :=
  match fuel with
  | O => (w, [], None)
  | S fuel =>
      if Nat.ltb retryCount maxRetries then
        match bot_start w with
        | (w1, None) => (w1, [Start_attempt], Some Bot_started)
        | (w1, Some Conflict_409) =>
            let retryCount := S retryCount in
            if Nat.ltb retryCount maxRetries then
              match start_loop fuel retryCount (sleep (2000 * retryCount) w1) with
              | (w2, effects, r) =>
                  (w2, Start_attempt :: Waited (2000 * retryCount) :: effects, r)
              end
            else (w1, [Start_attempt], Some Gave_up)
        | (w1, Some Other_error) => (w1, [Start_attempt], Some Start_failed)
        end
      else (w, [], Some Not_entered)
  end.

(** *** The "/start" command *)

(** What the handler reads of its context. *)
Record StartContext := {
  start_chatId : option Z;
  from_first_name : option string
}.

Definition already_working : string := "Already working! ".

(** [`Hi, ${ctx.from?.first_name}! Ready to work with you ...`], byte for
    byte as in src/main.ts. *)
Definition greeting (first_name : option string) : string :=
  String.append (JS.concat_opt "Hi, " first_name) "! Ready to work with you ðŸ˜Ž".

(** The handler of [this._bot.command("start", ...)]: the settings it
    leaves, the world, and the replies it sends. A failure of
    [saveSettings] is caught and logged. *)
Definition on_start (settings : Settings.TelegramBotPluginSettings) (ctx : StartContext)
           (w : W) : Settings.TelegramBotPluginSettings * W * list string :=
  if String.eqb (Settings.chatId settings) (JS.String_ (start_chatId ctx))
  then (settings, w, [already_working])
  else if negb (String.eqb (Settings.chatId settings) "")
  then (settings, w, [])
  else
    let settings :=
      {| Settings.botToken := Settings.botToken settings;
         Settings.chatId := JS.String_ (start_chatId ctx);
         Settings.downloadPath := Settings.downloadPath settings |} in
    match saveSettings settings w with
    | (w1, Fulfilled _) => (settings, w1, [greeting (from_first_name ctx)])
    | (w1, Rejected) => (settings, w1, [])
    end.

(** A run of "/start" commands, one after the other. *)
Fixpoint on_starts (settings : Settings.TelegramBotPluginSettings)
         (updates : list StartContext) (w : W)
  : Settings.TelegramBotPluginSettings * W * list (list string) :=
  match updates with
  | [] => (settings, w, [])
  | ctx :: rest =>
      match on_start settings ctx w with
      | (settings1, w1, sent) =>
          match on_starts settings1 rest w1 with
          | (settings2, w2, sents) => (settings2, w2, sent :: sents)
          end
      end
  end.

End Plugin.

(** ** Further notions used to state the properties *)

(** How many characters of a class a text has. *)
Fixpoint count_class (cls : list ascii) (s : string) : nat :=
  match s with
  | EmptyString => 0
  | String c rest => (if JS.in_class cls c then 1 else 0) + count_class cls rest
  end.

(** In [s], read after the character [previous], every character of the
    class directly follows a backslash. *)
Fixpoint class_chars_escaped (previous : ascii) (s : string) : bool :=
  match s with
  | EmptyString => true
  | String c rest =>
      (negb (JS.in_class esc_class c) || Ascii.eqb previous "\") &&
      class_chars_escaped c rest
  end.

(** [old] is kept at the front of [new]. *)
Definition extends {A} (old new : list A) : Prop := exists added, new = old ++ added.

(** The adapter [self'] has the configuration of [self] and every handler
    array of [self] at the front of its own. *)
Definition grown_from {W} (self self' : TelegramBotAdapter W) : Prop :=
  _chat_id self' = _chat_id self /\
  _vault_path self' = _vault_path self /\
  _download_path self' = _download_path self /\
  (forall k, extends (default [] (_command_handlers self !! k))
                     (default [] (_command_handlers self' !! k))) /\
  extends (_text_handlers self) (_text_handlers self') /\
  (forall k, extends (default [] (_file_handlers self !! k))
                     (default [] (_file_handlers self' !! k))).

Module Cases.

(** White space of the demo: the ASCII white space and the no-break space. *)
Definition white (c : ascii) : bool :=
  let n := nat_of_ascii c in
  (Nat.leb 9 n && Nat.leb n 13) || Nat.eqb n 32 || Nat.eqb n 160.

Definition token : string := "123456789:ABCdefGHIjklMNOpqrSTUvwxYZ_0123456-".

Definition settings (t chat : string) : Settings.TelegramBotPluginSettings :=
  {| Settings.botToken := t; Settings.chatId := chat; Settings.downloadPath := "inbox" |}.

Definition saving : Settings.TelegramBotPluginSettings -> Async Demo.World unit :=
  fun s w => (w ++ [String.append "saved " (Settings.chatId s)], Fulfilled tt).

Definition not_saving : Settings.TelegramBotPluginSettings -> Async Demo.World unit :=
  fun _ w => (w, Rejected).

Definition from (chat : Z) (name : string) : StartContext :=
  {| start_chatId := Some chat; from_first_name := Some name |}.

(** A bot whose start conflicts as long as the world's log is shorter
    than [n] entries; every attempt is logged. *)
Definition conflicting (n : nat) : Demo.World -> Demo.World * option StartError :=
  fun w => (w ++ ["start"], if Nat.ltb (length w) n then Some Conflict_409 else None).

(** A bot whose start conflicts as long as the world's log is shorter
    than [n] entries and fails otherwise afterwards. *)
Definition conflict_then_failure (n : nat)
  : Demo.World -> Demo.World * option StartError :=
  fun w => (w ++ ["start"],
            if Nat.ltb (length w) n then Some Conflict_409 else Some Other_error).

Definition sleeping : nat -> Demo.World -> Demo.World := fun _ w => w.

Definition node_down : string -> string -> option string -> Async Demo.World unit :=
  fun _ _ _ w => (w ++ ["node failed"], Rejected).

Definition node_up : string -> string -> option string -> Async Demo.World unit :=
  fun _ text _ w => (w ++ [text], Fulfilled tt).

Definition bot_up : string -> string -> option string -> Async Demo.World unit :=
  fun _ text _ w => (w ++ [text], Fulfilled tt).

(** A file update whose [getFile] rejects; [online] tells whether a
    reply can still be delivered. *)
Definition unreachable_file (chat : Z) (mime : option string) (online : bool)
  : Context Demo.World :=
  {| chatId := Some chat;
     message := Some (Demo.document_message mime);
     msg := Some (Demo.document_message mime);
     getFile := fun w => (w, Rejected);
     reply := fun _ _ w =>
       (w ++ ["reply attempted"], if online then Fulfilled tt else Rejected) |}.

(** An update that is a command, a text and a file at once, to compare
    the three handlers on one context. *)
Definition mixed_message : Message :=
  {| text := Some "/ping"; caption := Some "see attached";
     document := Some {| mime_type := Some "application/pdf" |}; animation := None;
     audio := None; photo := None; video := None; voice := None;
     video_note := None |}.

Definition mixed_update (chat : Z) : Context Demo.World :=
  {| chatId := Some chat;
     message := Some mixed_message;
     msg := Some mixed_message;
     getFile := fun w => (w, Fulfilled (Demo.remote_file "documents/file_1.pdf"));
     reply := fun _ _ w => (w, Fulfilled tt) |}.

(** An adapter with a handler of each kind registered. *)
Definition staffed : TelegramBotAdapter Demo.World :=
  addFileHandler
    (addTextHandler
       (addCommandHandler Demo.adapter "ping"
          (Demo.answering "a" (Demo.says "pong")) "unit-a")
       (Demo.text_answering "t" (Demo.says "read")) "unit-t")
    (Demo.file_answering "f" (Demo.says "stored")) "unit-f" None.

(** A command update whose replies cannot be delivered. *)
Definition offline_command (chat : Z) (t : string) : Context Demo.World :=
  {| chatId := Some chat;
     message := Some (Demo.text_message t);
     msg := Some (Demo.text_message t);
     getFile := fun w => (w, Rejected);
     reply := fun _ _ w => (w ++ ["reply attempted"], Rejected) |}.

End Cases.

(** * Properties *)

(** ** The handler loop *)

Section ChainFacts.

Context {W H : Type}.
Variable call : H -> bool -> Async W HandlerResult.

Lemma run_chain_cons (element : Entry H) rest processed_before (w : W) :
  run_chain call (element :: rest) processed_before w =
  match call (handler element) processed_before w with
  | (w1, Rejected) => (w1, [Invoked element processed_before Rejected], Rejected)
  | (w1, Fulfilled reply) =>
      match run_chain call rest (processed_before || processed reply) w1 with
      | (w2, t2, r) =>
          (w2, Invoked element processed_before (Fulfilled reply)
                 :: answer_effects element reply ++ t2, r)
      end
  end.
Proof.
  cbn [run_chain]. unfold bind at 1, await_handler.
  destruct (call (handler element) processed_before w) as [w1 [reply|]]; [|reflexivity].
  unfold bind at 1, answer_effects.
  destruct (answer reply) as [[|c s]|]; cbn;
    destruct (run_chain call rest (processed_before || processed reply) w1) as [[w2 t2] r];
    reflexivity.
Qed.

(** Running a concatenation is running the first part, then the second
    from the flag the first ended with. *)
Lemma run_chain_app (l1 l2 : list (Entry H)) processed_before (w : W) :
  run_chain call (l1 ++ l2) processed_before w =
  bind (run_chain call l1 processed_before) (run_chain call l2) w.
Proof.
  revert processed_before w.
  induction l1 as [|element rest IH]; intros pb w.
  - cbn. unfold bind, ret. destruct (run_chain call l2 pb w) as [[w2 t2] r]. reflexivity.
  - change ((element :: rest) ++ l2) with (element :: (rest ++ l2)).
    unfold bind at 1. rewrite !run_chain_cons.
    destruct (call (handler element) pb w) as [w1 [reply|]]; [|reflexivity].
    rewrite IH. unfold bind.
    destruct (run_chain call rest (pb || processed reply) w1) as [[w2 t2] [b|]].
    + destruct (run_chain call l2 b w2) as [[w3 t3] r].
      cbn. rewrite <- app_assoc. reflexivity.
    + reflexivity.
Qed.

End ChainFacts.

Section TraceFacts.

Context {H : Type}.
Implicit Types (effects : list (Effect H)) (cs : list (Call H)).

Lemma calls_app effects1 effects2 :
  calls (effects1 ++ effects2) = calls effects1 ++ calls effects2.
Proof. unfold calls. apply flat_map_app. Qed.

Lemma replies_app effects1 effects2 :
  replies (effects1 ++ effects2) = replies effects1 ++ replies effects2.
Proof. unfold replies. apply flat_map_app. Qed.

Lemma calls_answer_effects (element : Entry H) reply :
  calls (answer_effects element reply) = [].
Proof. unfold answer_effects. destruct (answer reply) as [[|c s]|]; reflexivity. Qed.

Lemma replies_answer_effects (element : Entry H) pb reply :
  replies (answer_effects element reply) =
  reply_to {| callee := element; flag := pb; outcome := Fulfilled reply |}.
Proof.
  unfold answer_effects, reply_to. cbn.
  destruct (answer reply) as [[|c s]|]; reflexivity.
Qed.

Lemma calls_chain_step (element : Entry H) pb reply effects :
  calls (Invoked element pb (Fulfilled reply) :: answer_effects element reply ++ effects) =
  {| callee := element; flag := pb; outcome := Fulfilled reply |} :: calls effects.
Proof.
  change (calls (Invoked element pb (Fulfilled reply)
                   :: answer_effects element reply ++ effects))
    with ({| callee := element; flag := pb; outcome := Fulfilled reply |}
            :: calls (answer_effects element reply ++ effects)).
  rewrite calls_app, calls_answer_effects. reflexivity.
Qed.



Lemma accumulates_app start cs1 cs2 :
  accumulates start cs1 ->
  accumulates (start || existsb claimed cs1) cs2 ->
  accumulates start (cs1 ++ cs2).
Proof.
  intros H1 H2 k c Hk.
  destruct (decide (k < length cs1)) as [Hlt|Hge].
  - rewrite lookup_app_l in Hk by exact Hlt.
    rewrite take_app_le by lia. apply H1, Hk.
  - rewrite lookup_app_r in Hk by lia.
    rewrite take_app_ge by lia.
    rewrite existsb_app, orb_assoc. apply H2, Hk.
Qed.



End TraceFacts.

Section ChainShape.

Context {W H : Type}.
Variable call : H -> bool -> Async W HandlerResult.
Implicit Types (items : list (Entry H)) (w : W).


(** The handlers called are an initial segment of the array, in array order. *)
Lemma run_chain_callees items start w :
  let cs := calls (effects_of (run_chain call items start w)) in
  map callee cs = take (length cs) items.
Proof.
  revert start w. induction items as [|element rest IH]; intros start w; cbn zeta.
  - reflexivity.
  - rewrite run_chain_cons.
    destruct (call (handler element) start w) as [w1 [reply|]].
    + specialize (IH (start || processed reply) w1). cbn zeta in IH.
      destruct (run_chain call rest (start || processed reply) w1) as [[w2 t2] r].
      unfold effects_of in *; cbn [fst snd] in *.
      rewrite calls_chain_step. cbn [map length take callee]. rewrite IH. reflexivity.
    + reflexivity.
Qed.

(** A run that completes has called every handler of the array, none
    threw, and it returns the or of the starting flag and all [processed]
    fields. *)
Lemma run_chain_fulfilled items start w w' effects b :
  run_chain call items start w = (w', effects, Fulfilled b) ->
  map callee (calls effects) = items /\
  existsb threw (calls effects) = false /\
  b = start || existsb claimed (calls effects).
Proof.
  revert start w w' effects b.
  induction items as [|element rest IH]; intros start w w' effects b.
  - cbn. unfold ret. intros [= <- <- <-]. cbn. rewrite orb_false_r. auto.
  - rewrite run_chain_cons.
    destruct (call (handler element) start w) as [w1 [reply|]]; [|discriminate].
    destruct (run_chain call rest (start || processed reply) w1) as [[w2 t2] r] eqn:E.
    intros [= <- <- ->].
    destruct (IH _ _ _ _ _ E) as (IH1 & IH2 & IH3).
    rewrite calls_chain_step. cbn [map existsb threw claimed outcome orb].
    rewrite IH1, IH2, IH3, orb_assoc. auto.
Qed.

(** A run that throws ends with the call that threw; no earlier call did. *)
Lemma run_chain_rejected items start w w' effects :
  run_chain call items start w = (w', effects, Rejected) ->
  exists before element processed_before,
    effects = before ++ [Invoked element processed_before Rejected] /\
    existsb threw (calls before) = false /\
    items !! length (calls before) = Some element.
Proof.
  revert start w w' effects.
  induction items as [|element rest IH]; intros start w w' effects.
  - cbn. unfold ret. discriminate.
  - rewrite run_chain_cons.
    destruct (call (handler element) start w) as [w1 [reply|]].
    + destruct (run_chain call rest (start || processed reply) w1) as [[w2 t2] r] eqn:E.
      intros [= <- <- ->].
      destruct (IH _ _ _ _ E) as (before & e & pb & -> & Hb & Hl).
      exists (Invoked element start (Fulfilled reply) :: answer_effects element reply ++ before), e, pb.
      split; [|split].
      * cbn. rewrite <- app_assoc. reflexivity.
      * rewrite calls_chain_step. exact Hb.
      * rewrite calls_chain_step. exact Hl.
    + intros [= <- <-]. exists [], element, start. auto.
Qed.

(** The effects of a run are, call by call, the call and then the reply
    to its answer. *)
Lemma run_chain_effects items start w :
  let effects := effects_of (run_chain call items start w) in
  effects =
  flat_map (fun c => Invoked (callee c) (flag c) (outcome c)
                       :: map (fun r => Replied (fst r) (snd r)) (reply_to c))
           (calls effects).
Proof.
  revert start w. induction items as [|element rest IH]; intros start w; cbn zeta.
  - reflexivity.
  - rewrite run_chain_cons.
    destruct (call (handler element) start w) as [w1 [reply|]].
    + specialize (IH (start || processed reply) w1). cbn zeta in IH.
      destruct (run_chain call rest (start || processed reply) w1) as [[w2 t2] r].
      unfold effects_of in *; cbn [fst snd] in *.
      rewrite calls_chain_step. cbn [flat_map callee flag outcome].
      rewrite <- IH. cbn. f_equal. f_equal.
      unfold answer_effects, reply_to; cbn.
      destruct (answer reply) as [[|c s]|]; reflexivity.
    + reflexivity.
Qed.

End ChainShape.

(** ** The event handlers as guarded chains *)

Section EventShape.

Context {W : Type}.
Variable moment_format : W -> string.
Variable path_join : list string -> string.
Variable fs_existsSync : string -> W -> bool.
Variable fs_mkdirSync : string -> Async W unit.

Local Abbreviation materialize :=
  (materialize moment_format path_join fs_existsSync fs_mkdirSync).
Local Abbreviation on_message_file :=
  (on_message_file moment_format path_join fs_existsSync fs_mkdirSync).

Implicit Types (self : TelegramBotAdapter W) (ctx : Context W) (w : W).

Lemma boundary_eq {H} ctx (chain : Run W H bool) w :
  boundary ctx chain w =
  match chain w with
  | (w1, t1, Fulfilled _) => (w1, t1, Fulfilled tt)
  | (w1, t1, Rejected) =>
      (fst (reply ctx internal_error None w1), t1 ++ [Replied internal_error None],
       snd (reply ctx internal_error None w1))
  end.
Proof.
  unfold boundary, try_catch, bind, ret, await_reply.
  destruct (chain w) as [[w1 t1] [b|]].
  - rewrite app_nil_r. reflexivity.
  - destruct (reply ctx internal_error None w1) as [w2 r]. reflexivity.
Qed.

(** The [catch] block alone, as it runs when materialization fails. *)
Lemma await_reply_eq {H} ctx w :
  await_reply (H := H) (reply ctx) internal_error None w =
  (fst (reply ctx internal_error None w), [Replied internal_error None],
   snd (reply ctx internal_error None w)).
Proof.
  unfold await_reply. destruct (reply ctx internal_error None w) as [w1 r]. reflexivity.
Qed.

Lemma on_bot_command_eq self ctx w :
  on_bot_command self ctx w =
  match command_chain self ctx with
  | Some items => boundary ctx (run_chain call_command items false) w
  | None => (w, [], Fulfilled tt)
  end.
Proof.
  unfold on_bot_command, command_chain.
  destruct (unauthorized self ctx); [reflexivity|].
  destruct (JS.slice 1 <$> (message ctx ≫= text)) as [[|c cmd]|]; try reflexivity.
  destruct (_command_handlers self !! String c cmd); reflexivity.
Qed.

Lemma on_message_text_eq self ctx w :
  on_message_text self ctx w =
  match text_chain self ctx with
  | Some items =>
      boundary ctx (run_chain (call_text (default "" (message ctx ≫= text))) items false) w
  | None => (w, [], Fulfilled tt)
  end.
Proof.
  unfold on_message_text, text_chain.
  destruct (unauthorized self ctx); [reflexivity|].
  destruct (_text_handlers self); reflexivity.
Qed.

(** Materializing calls no handler and sends no reply. *)
Lemma materialize_silent self ctx w : effects_of (materialize self ctx w) = [].
Proof.
  unfold materialize, effects_of, bind, await, read, throw, ret.
  destruct (getFile ctx w) as [w1 [file|]]; [|reflexivity].
  destruct (download file) as [dl|]; [|reflexivity].
  cbn.
  destruct (fs_existsSync _ w1); cbn.
  - destruct (dl _ w1) as [w2 [dp|]]; [|reflexivity]. cbn.
    destruct (getFileByPath _ _ w2); reflexivity.
  - destruct (fs_mkdirSync _ w1) as [w2 [[]|]]; [|reflexivity]. cbn.
    destruct (dl _ w2) as [w3 [dp|]]; [|reflexivity]. cbn.
    destruct (getFileByPath _ _ w3); reflexivity.
Qed.

Lemma on_message_file_eq self ctx w :
  on_message_file self ctx w =
  match file_key self ctx with
  | Some mime_type =>
      match materialize self ctx w with
      | (w1, _, Fulfilled obsidian_file) =>
          boundary ctx (run_chain (call_file obsidian_file (message ctx ≫= caption))
                                  (file_chains self mime_type) false) w1
      | (w1, _, Rejected) =>
          (fst (reply ctx internal_error None w1), [Replied internal_error None],
           snd (reply ctx internal_error None w1))
      end
  | None => (w, [], Fulfilled tt)
  end.
Proof.
  unfold on_message_file, file_key.
  destruct (unauthorized self ctx); [reflexivity|].
  destruct (msg ctx) as [m|]; [|reflexivity]. cbn [mbind option_bind].
  destruct (getFileMimeType m) as [[|c mt]|]; try reflexivity.
  pose proof (materialize_silent self ctx w) as Hsilent.
  assert (Hgo : forall (spec wild : option (list (Entry (FileHandler W)))),
    try_catch
      (obsidian_file <- materialize self ctx ;;
       processed_before <-
         match spec with
         | Some items => handle items obsidian_file (message ctx ≫= caption) false
         | None => ret false
         end ;;
       processed_before0 <-
         match wild with
         | Some items => handle items obsidian_file (message ctx ≫= caption) processed_before
         | None => ret processed_before
         end ;;
       ret tt)%run
      (await_reply (reply ctx) internal_error None) w =
    match materialize self ctx w with
    | (w1, _, Fulfilled obsidian_file) =>
        boundary ctx (run_chain (call_file obsidian_file (message ctx ≫= caption))
                                (default [] spec ++ default [] wild) false) w1
    | (w1, _, Rejected) =>
        (fst (reply ctx internal_error None w1), [Replied internal_error None],
         snd (reply ctx internal_error None w1))
    end).
  { intros spec wild.
    unfold try_catch at 1, bind at 1.
    destruct (materialize self ctx w) as [[w1 t1] [f|]];
      unfold effects_of in Hsilent; cbn in Hsilent; subst t1.
    2:{ unfold await_reply.
        destruct (reply ctx internal_error None w1) as [w2 r]. reflexivity. }
    rewrite boundary_eq, run_chain_app. unfold handle.
    assert (Hnil : forall b w0,
      run_chain (call_file f (message ctx ≫= caption)) [] b w0 = (w0, [], Fulfilled b))
      by reflexivity.
    unfold bind, ret, await_reply.
    destruct spec as [spec|], wild as [wild|]; cbn [from_option id]; rewrite ?Hnil.
    - destruct (run_chain _ spec false w1) as [[w2 t2] [b|]].
      + destruct (run_chain _ wild b w2) as [[w3 t3] [b'|]];
          try destruct (reply ctx internal_error None w3) as [w4 r4];
          cbn; rewrite ?app_nil_r; reflexivity.
      + destruct (reply ctx internal_error None w2) as [w4 r4];
          cbn; rewrite ?app_nil_r; reflexivity.
    - destruct (run_chain _ spec false w1) as [[w2 t2] [b|]];
        try destruct (reply ctx internal_error None w2) as [w4 r4];
        cbn; rewrite ?app_nil_r; reflexivity.
    - destruct (run_chain _ wild false w1) as [[w3 t3] [b'|]];
        try destruct (reply ctx internal_error None w3) as [w4 r4];
        cbn; rewrite ?app_nil_r; reflexivity.
    - reflexivity. }
  unfold file_chains.
  destruct (_file_handlers self !! String c mt) as [spec|] eqn:Es,
           (_file_handlers self !! "") as [wild|] eqn:Ew;
    cbn beta iota; rewrite ?Es, ?Ew; try reflexivity.
  - apply (Hgo (Some spec) (Some wild)).
  - apply (Hgo (Some spec) None).
  - apply (Hgo None (Some wild)).
Qed.

End EventShape.

(** ** Calls and replies of a guarded chain *)

Section BoundaryFacts.

Context {W H : Type}.
Variable ctx : Context W.
Implicit Types (chain : Run W H bool) (w : W).

Lemma boundary_calls chain w :
  calls (effects_of (boundary ctx chain w)) = calls (effects_of (chain w)).
Proof.
  rewrite boundary_eq. destruct (chain w) as [[w1 t1] [b|]]; [reflexivity|].
  unfold effects_of; cbn [fst snd]. rewrite calls_app. apply app_nil_r.
Qed.

(** A guarded chain settles as the chain does when it completes, and as
    the internal-error reply does when it throws. *)
Lemma boundary_settles chain w :
  snd (boundary ctx chain w) =
  match snd (chain w) with
  | Fulfilled _ => Fulfilled tt
  | Rejected => snd (reply ctx internal_error None (world_of (chain w)))
  end.
Proof. rewrite boundary_eq. destruct (chain w) as [[w1 t1] [b|]]; reflexivity. Qed.

Lemma boundary_replies chain w :
  replies (effects_of (boundary ctx chain w)) =
  replies (effects_of (chain w)) ++
  match snd (chain w) with
  | Fulfilled _ => []
  | Rejected => [(internal_error, None)]
  end.
Proof.
  rewrite boundary_eq. destruct (chain w) as [[w1 t1] [b|]]; unfold effects_of; cbn [fst snd].
  - symmetry. apply app_nil_r.
  - apply replies_app.
Qed.

End BoundaryFacts.

(** ** The accumulated flag (claim C1) *)


Section FlagTheorems.

Context {W : Type}.
Variable moment_format : W -> string.
Variable path_join : list string -> string.
Variable fs_existsSync : string -> W -> bool.
Variable fs_mkdirSync : string -> Async W unit.

Local Abbreviation on_message_file :=
  (on_message_file moment_format path_join fs_existsSync fs_mkdirSync).


End FlagTheorems.
Lemma esc_is_spec_esc (s : string) : esc s = spec_esc s.
Proof.
  unfold esc, spec_esc.
  induction s as [|c s IH]; [reflexivity|].
  cbn [JS.replace_class list_ascii_of_string flat_map].
  rewrite IH. unfold spec_escape_char, JS.in_class.
  change (list_ascii_of_string spec_escape_set) with esc_class.
  destruct (existsb (Ascii.eqb c) esc_class); reflexivity.
Qed.

Lemma getFileMimeType_spec (msg : Message) : getFileMimeType msg = spec_classify msg.
Proof.
  destruct msg as [t c d a au p v vo vn].
  unfold getFileMimeType, spec_classify; cbn.
  destruct d, a, au, p, v, vo, vn; reflexivity.
Qed.

(** An escaped text never starts with a character of the class. *)
Lemma esc_head (s : string) d rest :
  esc s = String d rest -> JS.in_class esc_class d = false.
Proof.
  destruct s as [|c s]; [discriminate|].
  unfold esc. cbn [JS.replace_class].
  destruct (JS.in_class esc_class c) eqn:E.
  - intros [= <- _]. reflexivity.
  - intros [= <- _]. exact E.
Qed.

(** Escaping alters nothing else: dropping the inserted backslashes gives
    the text back. *)
Lemma unesc_esc (s : string) : unesc (esc s) = s.
Proof.
  induction s as [|c s IH]; [reflexivity|].
  unfold esc in *. cbn [JS.replace_class].
  destruct (JS.in_class esc_class c) eqn:E.
  - change (unesc (String "\" (String c (JS.replace_class esc_class esc_template s)))
            = String c s).
    cbn [unesc]. rewrite E. cbn [Ascii.eqb Bool.eqb andb]. rewrite IH. reflexivity.
  - cbn [unesc].
    destruct (JS.replace_class esc_class esc_template s) as [|d rest] eqn:Es.
    + cbn in IH. rewrite <- IH. reflexivity.
    + rewrite (esc_head s d rest Es), andb_false_r. rewrite IH. reflexivity.
Qed.

(** ** The registry (claim C3, first part) *)

Section RegistryFacts.

Context {H : Type}.
Implicit Types (m : gmap string (list (Entry H))) (k : string) (e : Entry H).

Lemma push_or_set_lookup m k e :
  push_or_set m k e !! k = Some (default [] (m !! k) ++ [e]).
Proof.
  unfold push_or_set. destruct (m !! k) as [items|]; apply lookup_insert_eq.
Qed.

Lemma push_or_set_lookup_ne m k k' e :
  k <> k' -> push_or_set m k e !! k' = m !! k'.
Proof.
  intros Hne. unfold push_or_set.
  destruct (m !! k) as [items|]; apply lookup_insert_ne, Hne.
Qed.

End RegistryFacts.

(** ** The authorization guard (claim C6) *)

Section GuardTheorems.

Context {W : Type}.
Variable moment_format : W -> string.
Variable path_join : list string -> string.
Variable fs_existsSync : string -> W -> bool.
Variable fs_mkdirSync : string -> Async W unit.

Local Abbreviation on_message_file :=
  (on_message_file moment_format path_join fs_existsSync fs_mkdirSync).

Lemma unauthorized_true (self : TelegramBotAdapter W) (ctx : Context W) :
  JS.String_ (chatId ctx) <> _chat_id self -> unauthorized self ctx = true.
Proof.
  intros Hne. unfold unauthorized.
  destruct (String.eqb_spec (JS.String_ (chatId ctx)) (_chat_id self)); [contradiction|reflexivity].
Qed.

(** C6. When the conversation identity of an update, as the guard renders
    it, differs from the configured one, the command, text and file
    handlers call no handler, send no reply and leave the world as it
    was: the guard comes before everything else. *)
Theorem C6_unauthorized_is_silent
        (self : TelegramBotAdapter W) (ctx : Context W) (w : W) :
  JS.String_ (chatId ctx) <> _chat_id self ->
  on_bot_command self ctx w = (w, [], Fulfilled tt) /\
  on_message_text self ctx w = (w, [], Fulfilled tt) /\
  on_message_file self ctx w = (w, [], Fulfilled tt).
Proof.
  intros Hne. apply unauthorized_true in Hne.
  rewrite on_bot_command_eq, on_message_text_eq, on_message_file_eq.
  unfold command_chain, text_chain, file_key. rewrite Hne. auto.
Qed.

(** ** The empty command (claim C10) *)

(** Registering under the empty command name changes no command dispatch. *)
Lemma empty_command_key_unused (self : TelegramBotAdapter W) h unit_name ctx :
  command_chain (addCommandHandler self "" h unit_name) ctx = command_chain self ctx.
Proof.
  unfold command_chain, unauthorized; cbn [_chat_id _command_handlers addCommandHandler].
  destruct (negb _); [reflexivity|].
  destruct (JS.slice 1 <$> (message ctx ≫= text)) as [[|c cmd]|]; try reflexivity.
  apply push_or_set_lookup_ne. discriminate.
Qed.

(** C10. A command update whose text is only the leading marker calls no
    handler and sends no reply, whatever is registered; and a handler
    registered under the empty command name, which [addCommandHandler]
    accepts and stores, is never reached by any command update. *)
Theorem C10_empty_command_never_dispatched
        (self : TelegramBotAdapter W) (ctx : Context W) (w : W) (marker : ascii) :
  message ctx ≫= text = Some (String marker EmptyString) ->
  on_bot_command self ctx w = (w, [], Fulfilled tt) /\
  (forall h unit_name,
     _command_handlers (addCommandHandler self "" h unit_name) !! "" =
       Some (default [] (_command_handlers self !! "")
               ++ [{| handler := h; unit_name := unit_name |}]) /\
     on_bot_command (addCommandHandler self "" h unit_name) ctx w = (w, [], Fulfilled tt) /\
     forall ctx' w',
       on_bot_command (addCommandHandler self "" h unit_name) ctx' w' =
       on_bot_command self ctx' w').
Proof.
  intros Htext.
  assert (Hnone : forall self', command_chain self' ctx = None).
  { intros self'. unfold command_chain. rewrite Htext.
    destruct (unauthorized self' ctx); reflexivity. }
  split.
  - rewrite on_bot_command_eq, Hnone. reflexivity.
  - intros h unit_name. split; [|split].
    + apply push_or_set_lookup.
    + rewrite on_bot_command_eq, Hnone. reflexivity.
    + intros ctx' w'. rewrite !on_bot_command_eq, empty_command_key_unused. reflexivity.
Qed.

End GuardTheorems.

Lemma C6_unauthorized_is_silent_witness :
  let self := Cases.staffed in
  let stranger := Cases.mixed_update 7 in
  let owner := Cases.mixed_update 42 in
  let on_file ctx :=
    on_message_file Demo.moment_format Demo.path_join Demo.fs_existsSync
                    Demo.fs_mkdirSync self ctx [] in
  JS.String_ (chatId stranger) <> _chat_id self /\
  (on_bot_command self stranger [] = ([], [], Fulfilled tt) /\
   on_message_text self stranger [] = ([], [], Fulfilled tt) /\
   on_file stranger = ([], [], Fulfilled tt)) /\
  (map (fun c => unit_name (callee c)) (calls (effects_of (on_bot_command self owner [])))
     = ["unit-a"] /\
   map (fun c => unit_name (callee c)) (calls (effects_of (on_message_text self owner [])))
     = ["unit-t"] /\
   map (fun c => unit_name (callee c)) (calls (effects_of (on_file owner)))
     = ["unit-f"]).
Proof.
  cbn zeta.
  assert (Hne : JS.String_ (chatId (Cases.mixed_update 7)) <> _chat_id Cases.staffed)
    by (vm_compute; discriminate).
  split; [exact Hne|]. split.
  - apply (C6_unauthorized_is_silent Demo.moment_format Demo.path_join Demo.fs_existsSync
             Demo.fs_mkdirSync Cases.staffed (Cases.mixed_update 7) [] Hne).
  - vm_compute. repeat split.
Defined.

Lemma C10_empty_command_never_dispatched_witness :
  let self := addCommandHandler Demo.adapter "" (Demo.answering "a" (Demo.says "hi")) "unit-a" in
  let ctx := Demo.text_update 42 "/" in
  message ctx ≫= text = Some "/" /\
  on_bot_command self ctx [] = ([], [], Fulfilled tt).
Proof.
  cbn zeta. split; [reflexivity|].
  apply (C10_empty_command_never_dispatched
           (addCommandHandler Demo.adapter "" (Demo.answering "a" (Demo.says "hi")) "unit-a")
           (Demo.text_update 42 "/") [] "/"%char).
  reflexivity.
Defined.

(** ** The MIME classifier (claim C8) *)

(** C8. The classifier is the function of the message that takes the
    first payload kind present in the order document, animation, audio,
    photo, video, voice, video note and returns [image/jpeg] for a photo,
    [video/mp4] for a video note, the provider's MIME string (possibly
    absent) for the other kinds, and nothing when no kind is present. *)
Theorem C8_mime_classifier (msg : Message) :
  getFileMimeType msg = spec_classify msg.
Proof. apply getFileMimeType_spec. Qed.

(** ** Replies (claims C4 and C5) *)

Section ReplyFacts.

Context {W H : Type}.
Variable call : H -> bool -> Async W HandlerResult.
Implicit Types (items : list (Entry H)) (w : W).

(** The replies of a loop are the replies to its calls, in call order. *)
Lemma run_chain_replies items start w :
  replies (effects_of (run_chain call items start w)) =
  flat_map reply_to (calls (effects_of (run_chain call items start w))).
Proof.
  revert start w. induction items as [|element rest IH]; intros start w.
  - reflexivity.
  - rewrite run_chain_cons.
    destruct (call (handler element) start w) as [w1 [reply|]]; [|reflexivity].
    specialize (IH (start || processed reply) w1).
    destruct (run_chain call rest (start || processed reply) w1) as [[w2 t2] r].
    unfold effects_of in *; cbn [fst snd] in *.
    rewrite calls_chain_step. cbn [flat_map]. rewrite <- IH.
    change (replies (Invoked element start (Fulfilled reply)
                       :: answer_effects element reply ++ t2))
      with (replies (answer_effects element reply ++ t2)).
    rewrite replies_app, (replies_answer_effects element start). reflexivity.
Qed.

Lemma reply_to_markdown (c : Call H) r : In r (reply_to c) -> snd r = MarkdownV2.
Proof.
  unfold reply_to. destruct (outcome c) as [reply|]; [|intros []].
  destruct (JS.truthy (answer reply)); [|intros []].
  intros [<-|[]]. reflexivity.
Qed.

(** No reply of a loop is the unformatted internal-error reply. *)
Lemma run_chain_no_error_reply items start w :
  ~ In (internal_error, None) (replies (effects_of (run_chain call items start w))).
Proof.
  rewrite run_chain_replies. intros Hin.
  apply in_flat_map in Hin as (c & _ & Hr).
  apply reply_to_markdown in Hr. discriminate.
Qed.

(** A loop throws exactly when one of its calls threw. *)
Lemma run_chain_threw items start w :
  existsb threw (calls (effects_of (run_chain call items start w))) =
  match snd (run_chain call items start w) with
  | Fulfilled _ => false
  | Rejected => true
  end.
Proof.
  destruct (run_chain call items start w) as [[w1 t1] [b|]] eqn:E.
  - apply run_chain_fulfilled in E as (_ & Hno & _). exact Hno.
  - apply run_chain_rejected in E as (before & element & pb & -> & _ & _).
    unfold effects_of; cbn [fst snd]. rewrite calls_app, existsb_app.
    cbn. apply orb_true_r.
Qed.

(** When no call threw, every handler of the array was called, in order. *)
Lemma run_chain_complete items start w :
  existsb threw (calls (effects_of (run_chain call items start w))) = false ->
  map callee (calls (effects_of (run_chain call items start w))) = items.
Proof.
  rewrite run_chain_threw.
  destruct (run_chain call items start w) as [[w1 t1] [b|]] eqn:E; [|discriminate].
  intros _. apply run_chain_fulfilled in E as (Hall & _ & _). exact Hall.
Qed.

End ReplyFacts.

(** C4. The text of a labeled reply is [*], the escaped owner label, [:*],
    a newline and the escaped answer, where escaping puts exactly one
    backslash before every character of the set and keeps every other
    character (so dropping those backslashes gives the text back); owner
    and answer are escaped independently. Every handler of a loop that
    returns a non-empty answer is answered with that text, in MarkdownV2
    mode. *)
Theorem C4_reply_format :
  (forall unit_name answer,
     labeled_reply unit_name answer = spec_labeled_reply unit_name answer) /\
  (forall text, esc text = spec_esc text /\ unesc (esc text) = text) /\
  (forall W H (call : H -> bool -> Async W HandlerResult) items start (w : W) c reply a,
     In c (calls (effects_of (run_chain call items start w))) ->
     outcome c = Fulfilled reply ->
     answer reply = Some a ->
     a <> "" ->
     In (spec_labeled_reply (unit_name (callee c)) a, MarkdownV2)
        (replies (effects_of (run_chain call items start w)))).
Proof.
  assert (Hfmt : forall unit_name answer,
     labeled_reply unit_name answer = spec_labeled_reply unit_name answer).
  { intros. unfold labeled_reply, spec_labeled_reply.
    rewrite !esc_is_spec_esc. reflexivity. }
  split; [exact Hfmt|].
  split; [intros text; split; [apply esc_is_spec_esc|apply unesc_esc]|].
  intros W H call items start w c reply a Hin Hout Hans Hne.
  rewrite run_chain_replies. apply in_flat_map. exists c. split; [exact Hin|].
  unfold reply_to. rewrite Hout, Hans.
  destruct a as [|ch a]; [contradiction|]. cbn. left. rewrite Hfmt. reflexivity.
Qed.

Lemma C4_reply_format_witness :
  let res := run_chain call_command
               [{| handler := Demo.answering "a" (Demo.says "1+1=2!"); unit_name := "unit_a" |}]
               false [] in
  In (String.append "*unit\_a:*" (String.append newline "1\+1\=2\!"), MarkdownV2)
     (replies (effects_of res)).
Proof.
  cbn zeta.
  refine (proj2 (proj2 C4_reply_format) Demo.World _ call_command _ false []
            {| callee := {| handler := Demo.answering "a" (Demo.says "1+1=2!");
                            unit_name := "unit_a" |};
               flag := false;
               outcome := Fulfilled (Demo.says "1+1=2!") |}
            (Demo.says "1+1=2!") "1+1=2!" _ eq_refl eq_refl _).
  - left. reflexivity.
  - discriminate.
Defined.

(** The earlier revision of the adapter left the owner label unescaped. *)
Example earlier_revision_label_unescaped :
  labeled_reply_earlier "unit_a" "ok" <> labeled_reply "unit_a" "ok".
Proof. vm_compute. discriminate. Qed.

Section ReplyTheorems.

Context {W : Type}.
Variable moment_format : W -> string.
Variable path_join : list string -> string.
Variable fs_existsSync : string -> W -> bool.
Variable fs_mkdirSync : string -> Async W unit.

Local Abbreviation on_message_file :=
  (on_message_file moment_format path_join fs_existsSync fs_mkdirSync).

Lemma boundary_replies_follow_calls {H} (ctx : Context W)
      (call : H -> bool -> Async W HandlerResult) items start (w : W) :
  replies_follow_calls (effects_of (boundary ctx (run_chain call items start) w)).
Proof.
  unfold replies_follow_calls.
  rewrite boundary_calls, boundary_replies, run_chain_replies.
  eexists; split; [reflexivity|].
  destruct (snd (run_chain call items start w)); auto.
Qed.

(** C5, as the code has it. A handler that returns an answer that is
    neither null nor the empty string gets exactly one reply, labeled
    with its owner; a handler that returns null, or the empty string, or
    throws, gets none; so several handlers of one chain may each be
    answered for the same event. Besides these replies an event sends at
    most the one internal-error reply, after them. *)
Theorem C5_one_reply_per_nonempty_answer :
  (forall H (c : Call H),
     reply_to c =
     match outcome c with
     | Fulfilled reply =>
         match answer reply with
         | Some a =>
             if String.eqb a "" then []
             else [(labeled_reply (unit_name (callee c)) a, MarkdownV2)]
         | None => []
         end
     | Rejected => []
     end) /\
  (forall H (call : H -> bool -> Async W HandlerResult) items start (w : W),
     replies (effects_of (run_chain call items start w)) =
     flat_map reply_to (calls (effects_of (run_chain call items start w)))) /\
  (forall (self : TelegramBotAdapter W) (ctx : Context W) (w : W),
     replies_follow_calls (effects_of (on_bot_command self ctx w)) /\
     replies_follow_calls (effects_of (on_message_text self ctx w)) /\
     replies_follow_calls (effects_of (on_message_file self ctx w))).
Proof.
  assert (Hnone : forall H, replies_follow_calls (H := H) []).
  { intros H. exists []. auto. }
  split; [|split].
  - intros H c. unfold reply_to.
    destruct (outcome c) as [reply|]; [|reflexivity].
    destruct (answer reply) as [[|ch a]|]; reflexivity.
  - intros. apply run_chain_replies.
  - intros self ctx w. split; [|split].
    + rewrite on_bot_command_eq.
      destruct (command_chain self ctx); [apply boundary_replies_follow_calls|apply Hnone].
    + rewrite on_message_text_eq.
      destruct (text_chain self ctx); [apply boundary_replies_follow_calls|apply Hnone].
    + rewrite on_message_file_eq.
      destruct (file_key self ctx); [|apply Hnone].
      destruct (materialize _ _ _ _ self ctx w) as [[w1 t1] [f|]].
      * apply boundary_replies_follow_calls.
      * exists [(internal_error, None)]. auto.
Qed.

End ReplyTheorems.

(** C5 as stated fails on the empty answer: the handler returns an answer
    that is not null, and the dispatcher sends nothing. *)
Lemma C5_counterexample_empty_answer :
  let self := addCommandHandler Demo.adapter "ping"
                (Demo.answering "a" (Demo.says "")) "unit-a" in
  let effects := effects_of (on_bot_command self (Demo.text_update 42 "/ping") []) in
  map outcome (calls effects) = [Fulfilled {| processed := false; answer := Some "" |}] /\
  replies effects = [].
Proof. vm_compute. split; reflexivity. Qed.

(** ** Registration order is call order (claim C3) *)

Section OrderTheorems.

Context {W : Type}.
Variable moment_format : W -> string.
Variable path_join : list string -> string.
Variable fs_existsSync : string -> W -> bool.
Variable fs_mkdirSync : string -> Async W unit.

Local Abbreviation materialize :=
  (materialize moment_format path_join fs_existsSync fs_mkdirSync).
Local Abbreviation on_message_file :=
  (on_message_file moment_format path_join fs_existsSync fs_mkdirSync).

Implicit Types (self : TelegramBotAdapter W) (ctx : Context W) (w : W).






End OrderTheorems.


(** The same session, run: the duplicate is called twice, C last. *)
Example registration_order_run :
  let A := Demo.answering "a" (Demo.says "first") in
  let C := Demo.answering "c" Demo.silent_claim in
  let self :=
    addCommandHandler (addCommandHandler (addCommandHandler Demo.adapter
      "ping" A "unit-a") "ping" A "unit-a") "ping" C "unit-c" in
  let res := on_bot_command self (Demo.text_update 42 "/ping") [] in
  world_of res = ["a"; "a"; "c"] /\
  map (fun c => (unit_name (callee c), flag c)) (calls (effects_of res)) =
    [("unit-a", false); ("unit-a", false); ("unit-c", false)] /\
  map fst (replies (effects_of res)) =
    [labeled_reply "unit-a" "first"; labeled_reply "unit-a" "first"].
Proof. vm_compute. repeat split. Qed.

(** ** The two chains of a file event (claim C2) *)

Section FileTheorems.

Context {W : Type}.
Variable moment_format : W -> string.
Variable path_join : list string -> string.
Variable fs_existsSync : string -> W -> bool.
Variable fs_mkdirSync : string -> Async W unit.

Local Abbreviation materialize :=
  (materialize moment_format path_join fs_existsSync fs_mkdirSync).
Local Abbreviation on_message_file :=
  (on_message_file moment_format path_join fs_existsSync fs_mkdirSync).

Implicit Types (self : TelegramBotAdapter W) (ctx : Context W) (w : W).


End FileTheorems.


(** ** A throwing handler (claim C7) *)

Section ThrowFacts.

Context {W H : Type}.
Variable call : H -> bool -> Async W HandlerResult.

Lemma filter_none {A} (f : A -> bool) (l : list A) :
  (forall x, In x l -> f x = false) -> List.filter f l = [].
Proof.
  induction l as [|x l IH]; intros Hall; [reflexivity|].
  cbn. rewrite (Hall x) by (left; reflexivity).
  apply IH. intros y Hy. apply Hall. right. exact Hy.
Qed.

Lemma boundary_aborts_once (ctx : Context W) (items : list (Entry H)) start (w : W) :
  existsb threw (calls (effects_of (boundary ctx (run_chain call items start) w))) = true ->
  aborts_once items (effects_of (boundary ctx (run_chain call items start) w)).
Proof.
  intros Hthrew. rewrite boundary_calls, run_chain_threw in Hthrew.
  pose proof (run_chain_callees call items start w) as Hcallees. cbn zeta in Hcallees.
  pose proof (run_chain_no_error_reply call items start w) as Hnoerr.
  pose proof (boundary_calls ctx (run_chain call items start) w) as Hcalls.
  pose proof (boundary_replies ctx (run_chain call items start) w) as Hreplies.
  rewrite boundary_eq in *.
  destruct (run_chain call items start w) as [[w1 t1] [b|]] eqn:E; [discriminate|].
  apply run_chain_rejected in E as (before & element & pb & -> & Hno & Hat).
  unfold effects_of in *; cbn [fst snd] in *.
  exists before, element, pb.
  assert (Hlen : length (calls (before ++ [Invoked element pb Rejected]))
                 = S (length (calls before))).
  { rewrite calls_app, length_app. cbn. lia. }
  split; [|split; [|split; [|split]]].
  - rewrite <- app_assoc. reflexivity.
  - exact Hno.
  - exact Hat.
  - rewrite Hcalls, Hcallees, Hlen. reflexivity.
  - unfold error_replies. rewrite Hreplies, List.filter_app.
    rewrite filter_none; [reflexivity|].
    intros r Hr. apply bool_decide_eq_false. intros ->. exact (Hnoerr Hr).
Qed.

Lemma boundary_settles_with_error_reply (ctx : Context W) (items : list (Entry H))
      start (w : W) :
  existsb threw (calls (effects_of (boundary ctx (run_chain call items start) w))) = true ->
  settles_with_error_reply ctx (boundary ctx (run_chain call items start) w).
Proof.
  rewrite boundary_calls, run_chain_threw, boundary_eq.
  destruct (run_chain call items start w) as [[w1 t1] [b|]]; [discriminate|].
  intros _. exists w1. split; reflexivity.
Qed.

Lemma boundary_succeeds (ctx : Context W) (items : list (Entry H)) start (w : W) :
  existsb threw (calls (effects_of (boundary ctx (run_chain call items start) w))) = false ->
  succeeds items (boundary ctx (run_chain call items start) w).
Proof.
  intros Hno. unfold succeeds, error_replies.
  rewrite boundary_calls in *. rewrite boundary_replies, boundary_settles.
  pose proof (run_chain_complete call items start w Hno) as Hall.
  pose proof (run_chain_no_error_reply call items start w) as Hnoerr.
  rewrite run_chain_threw in Hno.
  destruct (snd (run_chain call items start w)); [|discriminate].
  rewrite app_nil_r, run_chain_replies. split; [exact Hall|]. split; [reflexivity|].
  split; [|reflexivity].
  rewrite <- run_chain_replies. apply filter_none.
  intros r Hr. apply bool_decide_eq_false. intros ->. exact (Hnoerr Hr).
Qed.

End ThrowFacts.

Section ThrowTheorems.

Context {W : Type}.
Variable moment_format : W -> string.
Variable path_join : list string -> string.
Variable fs_existsSync : string -> W -> bool.
Variable fs_mkdirSync : string -> Async W unit.

Local Abbreviation on_message_file :=
  (on_message_file moment_format path_join fs_existsSync fs_mkdirSync).
Local Abbreviation step := (step moment_format path_join fs_existsSync fs_mkdirSync).
Local Abbreviation session := (session moment_format path_join fs_existsSync fs_mkdirSync).

Implicit Types (self : TelegramBotAdapter W) (ctx : Context W) (w : W).

Lemma step_update_keeps_adapter self (i : Input W) w :
  is_update i = true -> fst (fst (step self i w)) = self.
Proof.
  destruct i; try discriminate; intros _; cbn.
  - destruct (on_bot_command self ctx w) as [[w1 t1] r]. reflexivity.
  - destruct (on_message_file self ctx w) as [[w1 t1] r]. reflexivity.
  - destruct (on_message_text self ctx w) as [[w1 t1] r]. reflexivity.
Qed.

(** C7. If a handler throws while a command, text or file event is
    processed, the event sends exactly one internal-error reply, as its
    last effect right after the call that threw, and the handlers after
    the one that threw are not called (for a file event this includes the
    whole wildcard chain when the specific chain threw); the handler then
    settles as that reply settles, so the exception goes no further when
    the reply is delivered. Whatever update was processed before, a
    failed one included, the adapter is the same afterwards, and the
    next command, text or file update is processed on it from the world
    left behind: if none of its own handlers throws (and, for a file, it
    is materialized), all handlers registered for it are called in
    order, every answer is replied to, no internal-error reply is sent
    and its handler fulfils. *)
Theorem C7_throw_aborts_chain_with_one_error_reply self ctx w :
  (existsb threw (calls (effects_of (on_bot_command self ctx w))) = true ->
   exists items,
     command_chain self ctx = Some items /\
     aborts_once items (effects_of (on_bot_command self ctx w)) /\
     settles_with_error_reply ctx (on_bot_command self ctx w)) /\
  (existsb threw (calls (effects_of (on_message_text self ctx w))) = true ->
   unauthorized self ctx = false /\
   aborts_once (_text_handlers self) (effects_of (on_message_text self ctx w)) /\
   settles_with_error_reply ctx (on_message_text self ctx w)) /\
  (existsb threw (calls (effects_of (on_message_file self ctx w))) = true ->
   exists mime_type,
     file_key self ctx = Some mime_type /\
     aborts_once (file_chains self mime_type) (effects_of (on_message_file self ctx w)) /\
     settles_with_error_reply ctx (on_message_file self ctx w)) /\
  (forall (before : Input W) (next : Context W),
     is_update before = true ->
     let left := snd (fst (step self before w)) in
     fst (fst (step self before w)) = self /\
     session self [before; Bot_command next] w =
       (self, world_of (on_bot_command self next left),
        [snd (step self before w);
         Command_effects (effects_of (on_bot_command self next left))]) /\
     session self [before; Message_text next] w =
       (self, world_of (on_message_text self next left),
        [snd (step self before w);
         Text_effects (effects_of (on_message_text self next left))]) /\
     session self [before; Message_file next] w =
       (self, world_of (on_message_file self next left),
        [snd (step self before w);
         File_effects (effects_of (on_message_file self next left))]) /\
     (forall items,
        command_chain self next = Some items ->
        existsb threw (calls (effects_of (on_bot_command self next left))) = false ->
        succeeds items (on_bot_command self next left)) /\
     (forall items,
        text_chain self next = Some items ->
        existsb threw (calls (effects_of (on_message_text self next left))) = false ->
        succeeds items (on_message_text self next left)) /\
     (forall mime_type w1 effects obsidian_file,
        file_key self next = Some mime_type ->
        materialize moment_format path_join fs_existsSync fs_mkdirSync self next left
          = (w1, effects, Fulfilled obsidian_file) ->
        existsb threw (calls (effects_of (on_message_file self next left))) = false ->
        succeeds (file_chains self mime_type) (on_message_file self next left))).
Proof.
  split; [|split; [|split]].
  - rewrite on_bot_command_eq.
    destruct (command_chain self ctx) as [items|]; [|discriminate].
    intros Hthrew. exists items. split; [reflexivity|].
    split; [apply boundary_aborts_once, Hthrew
           |apply boundary_settles_with_error_reply, Hthrew].
  - rewrite on_message_text_eq. unfold text_chain.
    destruct (unauthorized self ctx); [discriminate|].
    destruct (_text_handlers self) as [|e l]; [discriminate|].
    intros Hthrew. split; [reflexivity|].
    split; [apply boundary_aborts_once, Hthrew
           |apply boundary_settles_with_error_reply, Hthrew].
  - rewrite on_message_file_eq.
    destruct (file_key self ctx) as [mime_type|]; [|discriminate].
    destruct (materialize _ _ _ _ self ctx w) as [[w1 t1] [f|]]; [|discriminate].
    intros Hthrew. exists mime_type. split; [reflexivity|].
    split; [apply boundary_aborts_once, Hthrew
           |apply boundary_settles_with_error_reply, Hthrew].
  - intros before next Hupd. cbn zeta.
    pose proof (step_update_keeps_adapter self before w Hupd) as Hkeep.
    split; [exact Hkeep|].
    cbn [session]. destruct (step self before w) as [[self1 left] o1].
    cbn [fst snd] in *. subst self1.
    split; [|split; [|split; [|split; [|split]]]].
    + cbn [step]. destruct (on_bot_command self next left) as [[w2 t2] r2]. reflexivity.
    + cbn [step]. destruct (on_message_text self next left) as [[w2 t2] r2]. reflexivity.
    + cbn [step]. destruct (on_message_file self next left) as [[w2 t2] r2]. reflexivity.
    + intros items Hchain. rewrite on_bot_command_eq, Hchain. apply boundary_succeeds.
    + intros items Hchain. rewrite on_message_text_eq, Hchain. apply boundary_succeeds.
    + intros mime_type w1 effects f Hkey Hmat.
      rewrite on_message_file_eq, Hkey, Hmat. apply boundary_succeeds.
Qed.

End ThrowTheorems.

Lemma C7_throw_aborts_chain_with_one_error_reply_witness :
  let self :=
    addFileHandler (addFileHandler
      (addCommandHandler (addCommandHandler (addCommandHandler (addCommandHandler
         Demo.adapter
         "ping" (Demo.answering "a" (Demo.says "first")) "unit-a")
         "ping" Demo.throwing "unit-b")
         "ping" (Demo.answering "c" (Demo.says "third")) "unit-c")
         "pong" (Demo.answering "d" (Demo.says "fine")) "unit-d")
      Demo.file_throwing "unit-pdf" (Some "application/pdf"))
      (Demo.file_answering "any" (Demo.says "stored")) "unit-any" None in
  let failing := Cases.offline_command 42 "/ping" in
  let next := Demo.text_update 42 "/pong" in
  let document := Demo.file_update 42 (Some "application/pdf") "documents/file_1.pdf" in
  let on_file :=
    on_message_file Demo.moment_format Demo.path_join Demo.fs_existsSync
                    Demo.fs_mkdirSync self document [] in
  let left := snd (fst (step Demo.moment_format Demo.path_join Demo.fs_existsSync
                             Demo.fs_mkdirSync self (Bot_command failing) [])) in
  (existsb threw (calls (effects_of (on_bot_command self failing []))) = true /\
   snd (on_bot_command self failing []) = Rejected /\
   exists items,
     command_chain self failing = Some items /\
     aborts_once items (effects_of (on_bot_command self failing [])) /\
     settles_with_error_reply failing (on_bot_command self failing [])) /\
  (existsb threw (calls (effects_of on_file)) = true /\
   exists mime_type,
     file_key self document = Some mime_type /\
     aborts_once (file_chains self mime_type) (effects_of on_file) /\
     settles_with_error_reply document on_file) /\
  (is_update (Bot_command failing) = true /\
   left = ["a"; "reply attempted"] /\
   existsb threw (calls (effects_of (on_bot_command self next left))) = false /\
   succeeds [{| handler := Demo.answering "d" (Demo.says "fine"); unit_name := "unit-d" |}]
            (on_bot_command self next left)).
Proof.
  cbn zeta.
  set (self := addFileHandler _ _ "unit-any" None).
  destruct (C7_throw_aborts_chain_with_one_error_reply
              Demo.moment_format Demo.path_join Demo.fs_existsSync Demo.fs_mkdirSync
              self (Cases.offline_command 42 "/ping") [])
    as (Hcommand & _ & _ & Hnext).
  destruct (C7_throw_aborts_chain_with_one_error_reply
              Demo.moment_format Demo.path_join Demo.fs_existsSync Demo.fs_mkdirSync
              self (Demo.file_update 42 (Some "application/pdf") "documents/file_1.pdf") [])
    as (_ & _ & Hfile & _).
  split; [|split].
  - split; [reflexivity|]. split; [reflexivity|]. apply Hcommand. reflexivity.
  - split; [reflexivity|]. apply Hfile. reflexivity.
  - split; [reflexivity|]. split; [reflexivity|]. split; [reflexivity|].
    destruct (Hnext (Bot_command (Cases.offline_command 42 "/ping"))
                    (Demo.text_update 42 "/pong") eq_refl)
      as (_ & _ & _ & _ & Hsucceeds & _).
    apply Hsucceeds; reflexivity.
Defined.

(** The same registry, run on the failing command and then on another
    command: the first is answered by unit-a and the error reply only,
    the second is processed as usual. *)
Example failure_then_next_event :
  let self :=
    addCommandHandler (addCommandHandler (addCommandHandler (addCommandHandler Demo.adapter
      "ping" (Demo.answering "a" (Demo.says "first")) "unit-a")
      "ping" Demo.throwing "unit-b")
      "ping" (Demo.answering "c" (Demo.says "third")) "unit-c")
      "pong" (Demo.answering "d" (Demo.says "fine")) "unit-d" in
  let first := on_bot_command self (Demo.text_update 42 "/ping") [] in
  let second := on_bot_command self (Demo.text_update 42 "/pong") (world_of first) in
  replies (effects_of first) =
    [(labeled_reply "unit-a" "first", MarkdownV2); (internal_error, None)] /\
  map (fun c => unit_name (callee c)) (calls (effects_of first)) = ["unit-a"; "unit-b"] /\
  replies (effects_of second) = [(labeled_reply "unit-d" "fine", MarkdownV2)] /\
  world_of second = ["a"; "d"].
Proof. vm_compute. repeat split. Qed.

(** A file event whose specific handler throws: the wildcard chain is
    not run, and the one reply is the internal-error reply. *)
Example file_failure_skips_wildcard :
  let self :=
    addFileHandler
      (addFileHandler Demo.adapter Demo.file_throwing "unit-pdf" (Some "application/pdf"))
      (Demo.file_answering "any" (Demo.says "stored")) "unit-any" None in
  let ctx := Demo.file_update 42 (Some "application/pdf") "documents/file_1.pdf" in
  let res := on_message_file Demo.moment_format Demo.path_join Demo.fs_existsSync
                             Demo.fs_mkdirSync self ctx [] in
  map (fun c => (unit_name (callee c), threw c)) (calls (effects_of res)) =
    [("unit-pdf", true)] /\
  replies (effects_of res) = [(internal_error, None)].
Proof. vm_compute. split; reflexivity. Qed.

(** ** Local file names (claim C9) *)

Module Names.

Lemma append_cons (c : ascii) (s t : string) :
  String.append (String c s) t = String c (String.append s t).
Proof. reflexivity. Qed.

Lemma append_cancel (s a b : string) : String.append s a = String.append s b -> a = b.
Proof.
  induction s as [|c s IH]; cbn; [auto|]. intros [= Heq]. apply IH, Heq.
Qed.

Lemma append_assoc (s t u : string) :
  String.append (String.append s t) u = String.append s (String.append t u).
Proof.
  induction s as [|c s IH]; [reflexivity|].
  rewrite !append_cons, IH. reflexivity.
Qed.

Lemma replace_one_app cls (r : ascii) (s t : string) :
  JS.replace_class cls (fun _ => String r EmptyString) (String.append s t) =
  String.append (JS.replace_class cls (fun _ => String r EmptyString) s)
                (JS.replace_class cls (fun _ => String r EmptyString) t).
Proof.
  induction s as [|c s IH]; [reflexivity|].
  rewrite append_cons. cbn [JS.replace_class].
  destruct (JS.in_class cls c); rewrite IH; reflexivity.
Qed.

Lemma slice_past_prefix (v : string) (sep : ascii) (rest : string) :
  JS.slice (String.length v + 1) (String.append v (String sep rest)) = rest.
Proof.
  induction v as [|c v IH]; [reflexivity|].
  rewrite append_cons. cbn [String.length Nat.add JS.slice]. exact IH.
Qed.

Lemma replace_one_cons cls (r c : ascii) (s : string) :
  JS.replace_class cls (fun _ => String r EmptyString) (String c s) =
  String (if JS.in_class cls c then r else c)
         (JS.replace_class cls (fun _ => String r EmptyString) s).
Proof. cbn [JS.replace_class]. destruct (JS.in_class cls c); reflexivity. Qed.

Lemma in_class_one (c d : ascii) : JS.in_class [c] d = Ascii.eqb d c.
Proof. unfold JS.in_class. cbn [existsb]. apply orb_false_r. Qed.

Lemma hyphenated_has_no_slash (s : string) : occurs "/" (slashes_to_hyphens s) = false.
Proof.
  unfold slashes_to_hyphens. induction s as [|c s IH]; [reflexivity|].
  rewrite replace_one_cons, in_class_one. cbn [occurs]. rewrite IH, orb_false_r.
  destruct (Ascii.eqb_spec c "/") as [->|Hne]; [reflexivity|].
  apply Ascii.eqb_neq. congruence.
Qed.

Lemma backslashes_injective (s t : string) :
  occurs "/" s = false -> occurs "/" t = false ->
  backslashes_to_slashes s = backslashes_to_slashes t -> s = t.
Proof.
  unfold backslashes_to_slashes. revert t.
  induction s as [|c s IH]; intros [|d t]; rewrite ?replace_one_cons; try discriminate.
  - reflexivity.
  - cbn [occurs]. intros Hs Ht.
    apply orb_false_iff in Hs as [Hc Hs], Ht as [Hd Ht].
    apply Ascii.eqb_neq in Hc, Hd.
    rewrite !in_class_one. intros [= Hhead Htail].
    rewrite (IH t Hs Ht Htail). f_equal.
    destruct (Ascii.eqb_spec c "\") as [->|Hc'], (Ascii.eqb_spec d "\") as [->|Hd'];
      congruence.
Qed.

End Names.

Section NameTheorems.

Context {W : Type}.
Variable moment_format : W -> string.
Variable path_join : list string -> string.
Variable fs_existsSync : string -> W -> bool.
Variable fs_mkdirSync : string -> Async W unit.

Local Abbreviation materialize :=
  (materialize moment_format path_join fs_existsSync fs_mkdirSync).

Implicit Types (self : TelegramBotAdapter W) (ctx : Context W) (w : W).

(** What a successful materialization went through. *)
Lemma materialize_fulfilled self ctx w w' effects obsidian_file :
  materialize self ctx w = (w', effects, Fulfilled obsidian_file) ->
  exists w1 file download_fn w2 download_path,
    getFile ctx w = (w1, Fulfilled file) /\
    download file = Some download_fn /\
    download_fn (path_join [_vault_path self; _download_path self;
                            file_name_of (moment_format w1) (file_path file)]) w2
      = (w', Fulfilled download_path) /\
    getFileByPath (_app self) (path_in_vault_of (_vault_path self) download_path) w'
      = Some obsidian_file.
Proof.
  unfold materialize, bind, await, read, throw, ret.
  destruct (getFile ctx w) as [w1 [file|]]; [|discriminate].
  destruct (download file) as [dl|] eqn:Edl; [|discriminate].
  cbn.
  destruct (fs_existsSync _ w1); cbn.
  - destruct (dl _ w1) as [w2 [dp|]] eqn:Ed; [|discriminate]. cbn.
    destruct (getFileByPath _ _ w2) as [f|] eqn:Ef; [|discriminate].
    intros [= <- <- <-]. exists w1, file, dl, w1, dp. auto.
  - destruct (fs_mkdirSync _ w1) as [w2 [[]|]]; [|discriminate]. cbn.
    destruct (dl _ w2) as [w3 [dp|]] eqn:Ed; [|discriminate]. cbn.
    destruct (getFileByPath _ _ w3) as [f|] eqn:Ef; [|discriminate].
    intros [= <- <- <-]. exists w1, file, dl, w2, dp. auto.
Qed.

Lemma file_name_of_present stamp p :
  file_name_of stamp (Some p) = String.append stamp (slashes_to_hyphens p).
Proof. reflexivity. Qed.

(** The vault path looked up for a file name, when the download lands
    where it was requested and [path.join] puts the name under a fixed
    directory of the vault. *)
Lemma path_in_vault_of_joined vault (sep : ascii) dir name :
  path_in_vault_of vault (String.append vault (String sep (String.append dir name))) =
  String.append (backslashes_to_slashes dir) (backslashes_to_slashes name).
Proof.
  unfold path_in_vault_of. rewrite Names.slice_past_prefix.
  apply Names.replace_one_app.
Qed.

(** C9, as the code has it. Two remote paths that are still distinct
    after their path separators are replaced by hyphens give, under the
    same formatted time, distinct local file names. If moreover
    [path.join] puts these two file names under one directory of the
    vault (as it does for a name that is a single path segment), the
    downloads land where they were requested and the vault index returns
    handles carrying the path looked up, then two file events with such
    paths, materialized in the same second, resolve to distinct
    handles. *)
Theorem C9_distinct_flattened_paths_distinct_files :
  (forall stamp p1 p2,
     hyphenate (Some p1) <> hyphenate (Some p2) ->
     file_name_of stamp (Some p1) <> file_name_of stamp (Some p2)) /\
  (forall self ctx1 ctx2 (wa wb wa1 wb1 wa' wb' : W) file1 file2 p1 p2 f1 f2
          (sep : ascii) (dir : string),
     getFile ctx1 wa = (wa1, Fulfilled file1) -> file_path file1 = Some p1 ->
     getFile ctx2 wb = (wb1, Fulfilled file2) -> file_path file2 = Some p2 ->
     moment_format wa1 = moment_format wb1 ->
     hyphenate (Some p1) <> hyphenate (Some p2) ->
     (forall name,
        name = file_name_of (moment_format wa1) (Some p1) \/
        name = file_name_of (moment_format wb1) (Some p2) ->
        path_join [_vault_path self; _download_path self; name] =
        String.append (_vault_path self) (String sep (String.append dir name))) ->
     (forall file download_fn target w w' download_path,
        file = file1 \/ file = file2 ->
        download file = Some download_fn ->
        download_fn target w = (w', Fulfilled download_path) ->
        download_path = target) ->
     (forall p w h, getFileByPath (_app self) p w = Some h -> path h = p) ->
     materialize self ctx1 wa = (wa', [], Fulfilled f1) ->
     materialize self ctx2 wb = (wb', [], Fulfilled f2) ->
     f1 <> f2).
Proof.
  assert (Hflat : forall p1 p2,
            hyphenate (Some p1) <> hyphenate (Some p2) ->
            slashes_to_hyphens p1 <> slashes_to_hyphens p2).
  { intros p1 p2 Hne Heq. apply Hne. cbn. f_equal. exact Heq. }
  split.
  - intros stamp p1 p2 Hne Heq. rewrite !file_name_of_present in Heq.
    apply Names.append_cancel in Heq. exact (Hflat p1 p2 Hne Heq).
  - intros self ctx1 ctx2 wa wb wa1 wb1 wa' wb' file1 file2 p1 p2 f1 f2 sep dir
           Hg1 Hp1 Hg2 Hp2 Hstamp Hne Hjoin Hdl Hindex Hm1 Hm2 Hsame.
    apply materialize_fulfilled in Hm1 as (wa1' & file1' & dl1 & wa2 & got1
                                           & Hg1' & Hd1 & Hgot1 & Hf1).
    apply materialize_fulfilled in Hm2 as (wb1' & file2' & dl2 & wb2 & got2
                                           & Hg2' & Hd2 & Hgot2 & Hf2).
    rewrite Hg1 in Hg1'. injection Hg1' as <- <-.
    rewrite Hg2 in Hg2'. injection Hg2' as <- <-.
    apply (Hdl file1) in Hgot1; [|left; reflexivity|exact Hd1].
    apply (Hdl file2) in Hgot2; [|right; reflexivity|exact Hd2].
    apply Hindex in Hf1, Hf2. subst got1 got2.
    rewrite Hp1 in Hf1. rewrite Hp2 in Hf2.
    rewrite (Hjoin _ (or_introl eq_refl)), path_in_vault_of_joined in Hf1.
    rewrite (Hjoin _ (or_intror eq_refl)), path_in_vault_of_joined in Hf2.
    rewrite file_name_of_present in Hf1, Hf2.
    rewrite Hsame, Hf2, Hstamp in Hf1. symmetry in Hf1.
    apply Names.append_cancel in Hf1.
    unfold backslashes_to_slashes in Hf1.
    rewrite !Names.replace_one_app in Hf1.
    apply Names.append_cancel in Hf1.
    apply Names.backslashes_injective in Hf1;
      [|apply Names.hyphenated_has_no_slash|apply Names.hyphenated_has_no_slash].
    exact (Hflat p1 p2 Hne Hf1).
Qed.

End NameTheorems.

(** C9 as stated fails: a separator and a hyphen flatten alike, so two
    distinct remote paths get one local file name under the same
    formatted time, and the two events resolve to one handle. *)
Lemma C9_counterexample_separator_and_hyphen :
  let stamp := "2024-01-01-00-00-00-" in
  let first := Demo.file_update 42 (Some "application/pdf") "a/b.pdf" in
  let second := Demo.file_update 42 (Some "application/pdf") "a-b.pdf" in
  let resolve ctx :=
    snd (materialize Demo.moment_format Demo.path_join Demo.fs_existsSync
                     Demo.fs_mkdirSync Demo.adapter ctx []) in
  "a/b.pdf" <> "a-b.pdf" /\
  file_name_of stamp (Some "a/b.pdf") = file_name_of stamp (Some "a-b.pdf") /\
  resolve first = Fulfilled {| path := "inbox/2024-01-01-00-00-00-a-b.pdf" |} /\
  resolve second = resolve first.
Proof. cbn zeta. split; [discriminate|]. vm_compute. repeat split. Qed.

Lemma C9_distinct_flattened_paths_distinct_files_witness :
  let first := Demo.file_update 42 (Some "image/jpeg") "photos/file_1.jpg" in
  let second := Demo.file_update 42 (Some "image/jpeg") "photos/file_2.jpg" in
  let resolve ctx :=
    materialize Demo.moment_format Demo.path_join Demo.fs_existsSync
                Demo.fs_mkdirSync Demo.adapter ctx [] in
  hyphenate (Some "photos/file_1.jpg") <> hyphenate (Some "photos/file_2.jpg") /\
  file_name_of "2024-01-01-00-00-00-" (Some "photos/file_1.jpg") <>
  file_name_of "2024-01-01-00-00-00-" (Some "photos/file_2.jpg") /\
  (forall wa wb f1 f2,
     resolve first = (wa, [], Fulfilled f1) ->
     resolve second = (wb, [], Fulfilled f2) ->
     f1 <> f2) /\
  snd (resolve first) = Fulfilled {| path := "inbox/2024-01-01-00-00-00-photos-file_1.jpg" |} /\
  snd (resolve second) = Fulfilled {| path := "inbox/2024-01-01-00-00-00-photos-file_2.jpg" |}.
Proof.
  cbn zeta.
  assert (Hne : hyphenate (Some "photos/file_1.jpg") <> hyphenate (Some "photos/file_2.jpg"))
    by (vm_compute; discriminate).
  destruct (C9_distinct_flattened_paths_distinct_files
              Demo.moment_format Demo.path_join Demo.fs_existsSync Demo.fs_mkdirSync)
    as [Hnames Hhandles].
  split; [exact Hne|]. split; [exact (Hnames _ _ _ Hne)|].
  split; [|split; reflexivity].
  intros wa wb f1 f2 H1 H2.
  apply (Hhandles Demo.adapter
           (Demo.file_update 42 (Some "image/jpeg") "photos/file_1.jpg")
           (Demo.file_update 42 (Some "image/jpeg") "photos/file_2.jpg")
           [] [] [] [] wa wb
           (Demo.remote_file "photos/file_1.jpg") (Demo.remote_file "photos/file_2.jpg")
           "photos/file_1.jpg" "photos/file_2.jpg" f1 f2 "/"%char "inbox/"
           eq_refl eq_refl eq_refl eq_refl eq_refl Hne).
  - intros name _. reflexivity.
  - intros file dl target w w' got [->| ->] [= <-] [= _ <-]; reflexivity.
  - intros p w h [= <-]. reflexivity.
  - exact H1.
  - exact H2.
Defined.

(** * Further properties *)

(** ** The guard and the configured identity *)

Lemma String_nonempty (v : option Z) : JS.String_ v <> "".
Proof.
  destruct v as [z|]; [|discriminate].
  unfold JS.String_. destruct z as [|p|p]; cbn.
  - discriminate.
  - destruct (Pos.to_uint p); discriminate.
  - discriminate.
Qed.

Lemma String_of_int_inj (a b : Z) :
  JS.String_ (Some a) = JS.String_ (Some b) -> a = b.
Proof.
  unfold JS.String_. intros Heq.
  assert (Hsome : forall z, NilZero.int_of_string (NilZero.string_of_int (Z.to_int z))
                            = Some (Z.to_int z)).
  { intros z. apply NilZero.isi; destruct z as [|p|p]; cbn; try discriminate.
    - intros [= Hp]. exact (Unsigned.to_uint_nonnil p Hp).
    - intros [= Hp]. exact (Unsigned.to_uint_nonnil p Hp). }
  apply to_int_inj.
  pose proof (Hsome a) as Ha. rewrite Heq, Hsome in Ha. congruence.
Qed.

Lemma String_undefined_not_int (z : Z) : JS.String_ None <> JS.String_ (Some z).
Proof.
  unfold JS.String_. destruct z as [|p|p]; cbn; try discriminate.
  destruct (Pos.to_uint p); cbn; discriminate.
Qed.

Lemma unauthorized_false_iff {W} (self : TelegramBotAdapter W) (ctx : Context W) (c : Z) :
  _chat_id self = JS.String_ (Some c) ->
  (unauthorized self ctx = false <-> chatId ctx = Some c).
Proof.
  intros Hcfg. unfold unauthorized. rewrite Hcfg. split.
  - intros Hpass. apply negb_false_iff, String.eqb_eq in Hpass.
    destruct (chatId ctx) as [z|].
    + f_equal. apply String_of_int_inj, Hpass.
    + exfalso. exact (String_undefined_not_int c Hpass).
  - intros ->. rewrite String.eqb_refl. reflexivity.
Qed.

Section GuardFacts.

Context {W : Type}.
Variable moment_format : W -> string.
Variable path_join : list string -> string.
Variable fs_existsSync : string -> W -> bool.
Variable fs_mkdirSync : string -> Async W unit.

Local Abbreviation on_message_file :=
  (on_message_file moment_format path_join fs_existsSync fs_mkdirSync).
Local Abbreviation materialize :=
  (materialize moment_format path_join fs_existsSync fs_mkdirSync).

Implicit Types (self : TelegramBotAdapter W) (ctx : Context W) (w : W).

(** An adapter constructed while no chat is configured (the empty
    identity) rejects every update of every kind: [String(ctx.chatId)] is
    never the empty string. *)
Theorem unconfigured_adapter_rejects_everything self ctx w :
  _chat_id self = "" ->
  on_bot_command self ctx w = (w, [], Fulfilled tt) /\
  on_message_text self ctx w = (w, [], Fulfilled tt) /\
  on_message_file self ctx w = (w, [], Fulfilled tt).
Proof.
  intros Hempty.
  assert (Hun : unauthorized self ctx = true).
  { apply unauthorized_true. rewrite Hempty. apply String_nonempty. }
  rewrite on_bot_command_eq, on_message_text_eq, on_message_file_eq.
  unfold command_chain, text_chain, file_key. rewrite Hun. auto.
Qed.

(** With the identity of chat [c] configured, where [c] and the chat id
    of the update are safe integers (the numbers [String] prints digit by
    digit, as chat ids are), an update passes the guard exactly when its
    chat id is the number [c]; an update without a chat id does not
    pass. *)
Theorem guard_accepts_exactly_the_configured_chat self ctx (c : Z) :
  JS.safe_integer c ->
  (forall z, chatId ctx = Some z -> JS.safe_integer z) ->
  _chat_id self = JS.String_ (Some c) ->
  (unauthorized self ctx = false <-> chatId ctx = Some c).
Proof. intros _ _. apply unauthorized_false_iff. Qed.

(** ** Updates nobody is registered for *)

(** A command update whose text after the first character is not a
    registered command, or that has no text, and a text update while no
    text handler is registered, do nothing at all. *)
Theorem unregistered_updates_are_silent self ctx w :
  (forall t, message ctx ≫= text = Some t ->
             _command_handlers self !! JS.slice 1 t = None ->
             on_bot_command self ctx w = (w, [], Fulfilled tt)) /\
  (message ctx ≫= text = None ->
   on_bot_command self ctx w = (w, [], Fulfilled tt)) /\
  (_text_handlers self = [] ->
   on_message_text self ctx w = (w, [], Fulfilled tt)).
Proof.
  split; [|split].
  - intros t Ht Hnone. rewrite on_bot_command_eq. unfold command_chain. rewrite Ht.
    destruct (unauthorized self ctx); [reflexivity|].
    cbn [fmap option_fmap option_map].
    destruct (JS.slice 1 t) as [|c key]; [reflexivity|]. rewrite Hnone. reflexivity.
  - intros Ht. rewrite on_bot_command_eq. unfold command_chain. rewrite Ht.
    destruct (unauthorized self ctx); reflexivity.
  - intros Hnil. rewrite on_message_text_eq. unfold text_chain. rewrite Hnil.
    destruct (unauthorized self ctx); reflexivity.
Qed.

(** A file update without a message, or whose attachment has no MIME
    type or the empty MIME type, does nothing at all: no handler, no
    reply, and the file is not even requested (the world is untouched). *)
Theorem unclassifiable_file_is_dropped self ctx w :
  msg ctx = None \/
  (exists m, msg ctx = Some m /\
             (getFileMimeType m = None \/ getFileMimeType m = Some "")) ->
  on_message_file self ctx w = (w, [], Fulfilled tt).
Proof.
  intros Hcase. rewrite on_message_file_eq. unfold file_key.
  destruct (unauthorized self ctx); [reflexivity|].
  destruct Hcase as [->|(m & -> & [Hm|Hm])]; cbn [mbind option_bind];
    rewrite ?Hm; reflexivity.
Qed.

(** When handlers are registered for an authorized, classified file
    update but the file cannot be materialized, the event calls no
    handler and attempts the one internal-error reply, in the world the
    failed materialization left; the event then settles as that awaited
    reply settles, so it rejects when the reply cannot be delivered.
    Materialization fails, in particular, when [getFile] rejects and when
    the file object has no [download] method. *)
Theorem failed_materialization_sends_one_error self ctx w mime_type :
  file_key self ctx = Some mime_type ->
  (snd (materialize self ctx w) = Rejected ->
   effects_of (on_message_file self ctx w) = [Replied internal_error None] /\
   on_message_file self ctx w =
   (fst (reply ctx internal_error None (world_of (materialize self ctx w))),
    [Replied internal_error None],
    snd (reply ctx internal_error None (world_of (materialize self ctx w))))) /\
  (forall w1, getFile ctx w = (w1, Rejected) ->
              on_message_file self ctx w =
              (fst (reply ctx internal_error None w1),
               [Replied internal_error None],
               snd (reply ctx internal_error None w1))) /\
  (forall w1 file, getFile ctx w = (w1, Fulfilled file) -> download file = None ->
              on_message_file self ctx w =
              (fst (reply ctx internal_error None w1),
               [Replied internal_error None],
               snd (reply ctx internal_error None w1))).
Proof.
  intros Hkey. rewrite on_message_file_eq, Hkey. split; [|split].
  - destruct (materialize self ctx w) as [[w1 t1] [f|]]; [discriminate|].
    intros _. split; reflexivity.
  - intros w1 Hget. unfold materialize, bind, await. rewrite Hget. reflexivity.
  - intros w1 file Hget Hdl. unfold materialize, bind, await, throw. rewrite Hget, Hdl.
    reflexivity.
Qed.

End GuardFacts.

(** ** Registrations and the events they do not concern *)

Section IndependenceFacts.

Context {W : Type}.
Variable moment_format : W -> string.
Variable path_join : list string -> string.
Variable fs_existsSync : string -> W -> bool.
Variable fs_mkdirSync : string -> Async W unit.

Local Abbreviation on_message_file :=
  (on_message_file moment_format path_join fs_existsSync fs_mkdirSync).
Local Abbreviation materialize :=
  (materialize moment_format path_join fs_existsSync fs_mkdirSync).
Local Abbreviation session := (session moment_format path_join fs_existsSync fs_mkdirSync).
Local Abbreviation step := (step moment_format path_join fs_existsSync fs_mkdirSync).

Implicit Types (self : TelegramBotAdapter W) (ctx : Context W) (w : W).

(** A registration changes only the events of its own kind and key: a
    text or file registration changes no command event, and so on for
    the other kinds; a command registered under [cmd] changes no command
    event whose text after the first character differs from [cmd]; a file
    handler registered for one MIME type changes no file event of another
    type. *)
Theorem registration_leaves_other_events_alone self ctx w :
  (forall h u, on_bot_command (addTextHandler self h u) ctx w = on_bot_command self ctx w) /\
  (forall h u mt, on_bot_command (addFileHandler self h u mt) ctx w
                  = on_bot_command self ctx w) /\
  (forall cmd h u, on_message_text (addCommandHandler self cmd h u) ctx w
                   = on_message_text self ctx w) /\
  (forall h u mt, on_message_text (addFileHandler self h u mt) ctx w
                  = on_message_text self ctx w) /\
  (forall cmd h u, on_message_file (addCommandHandler self cmd h u) ctx w
                   = on_message_file self ctx w) /\
  (forall h u, on_message_file (addTextHandler self h u) ctx w
               = on_message_file self ctx w) /\
  (forall cmd h u t,
     message ctx ≫= text = Some t -> JS.slice 1 t <> cmd ->
     on_bot_command (addCommandHandler self cmd h u) ctx w = on_bot_command self ctx w) /\
  (forall h u key m,
     msg ctx = Some m -> key <> "" -> getFileMimeType m <> Some key ->
     on_message_file (addFileHandler self h u (Some key)) ctx w
     = on_message_file self ctx w).
Proof.
  repeat match goal with |- _ /\ _ => split end; try (intros; reflexivity).
  - intros cmd h u t Ht Hne. rewrite !on_bot_command_eq.
    replace (command_chain (addCommandHandler self cmd h u) ctx)
      with (command_chain self ctx); [reflexivity|].
    unfold command_chain, unauthorized; cbn [_chat_id _command_handlers addCommandHandler].
    destruct (negb _); [reflexivity|]. rewrite Ht. cbn [fmap option_fmap option_map].
    destruct (JS.slice 1 t) as [|c k] eqn:E; [reflexivity|].
    symmetry. apply push_or_set_lookup_ne. congruence.
  - intros h u key m Hmsg Hkey Hmime.
    assert (Hadd : _file_handlers (addFileHandler self h u (Some key))
                   = push_or_set (_file_handlers self) key
                                 {| handler := h; unit_name := u |}).
    { destruct key; [contradiction|reflexivity]. }
    rewrite !on_message_file_eq.
    assert (Hlook : forall k, k <> key ->
              _file_handlers (addFileHandler self h u (Some key)) !! k
              = _file_handlers self !! k).
    { intros k Hk. rewrite Hadd. apply push_or_set_lookup_ne. congruence. }
    unfold file_key, unauthorized, file_chains.
    change (_chat_id (addFileHandler self h u (Some key))) with (_chat_id self).
    destruct (negb _); [reflexivity|].
    rewrite Hmsg. cbn [mbind option_bind].
    destruct (getFileMimeType m) as [[|c mt]|] eqn:Em; try reflexivity.
    assert (H1 := Hlook (String c mt) ltac:(congruence)).
    assert (H2 := Hlook "" ltac:(congruence)).
    rewrite H1, H2.
    destruct (_file_handlers self !! String c mt) eqn:E1,
             (_file_handlers self !! "") eqn:E2;
      cbn beta iota; rewrite ?H1, ?H2, ?E1, ?E2; reflexivity.
Qed.

(** ** What a session keeps *)

Lemma extends_refl {A} (l : list A) : extends l l.
Proof. exists []. symmetry. apply app_nil_r. Qed.

Lemma extends_trans {A} (l1 l2 l3 : list A) : extends l1 l2 -> extends l2 l3 -> extends l1 l3.
Proof. intros [a ->] [b ->]. exists (a ++ b). symmetry. apply app_assoc. Qed.

Lemma push_or_set_extends {H} (m : gmap string (list (Entry H))) k e k' :
  extends (default [] (m !! k')) (default [] (push_or_set m k e !! k')).
Proof.
  destruct (decide (k = k')) as [<-|Hne].
  - rewrite push_or_set_lookup. cbn. exists [e]. reflexivity.
  - rewrite push_or_set_lookup_ne by exact Hne. apply extends_refl.
Qed.

Lemma grown_from_refl self : grown_from self self.
Proof. unfold grown_from. repeat split; intros; apply extends_refl. Qed.

Lemma grown_from_trans self1 self2 self3 :
  grown_from self1 self2 -> grown_from self2 self3 -> grown_from self1 self3.
Proof.
  intros (A1 & A2 & A3 & A4 & A5 & A6) (B1 & B2 & B3 & B4 & B5 & B6).
  unfold grown_from. repeat split; try congruence.
  - intros k. exact (extends_trans _ _ _ (A4 k) (B4 k)).
  - exact (extends_trans _ _ _ A5 B5).
  - intros k. exact (extends_trans _ _ _ (A6 k) (B6 k)).
Qed.

Lemma step_grows self (i : Input W) w : grown_from self (fst (fst (step self i w))).
Proof.
  destruct i; cbn.
  - unfold grown_from; cbn. repeat split; intros; try apply extends_refl.
    apply push_or_set_extends.
  - unfold grown_from; cbn. repeat split; intros; try apply extends_refl.
    eexists; reflexivity.
  - unfold grown_from; cbn. repeat split; intros; try apply extends_refl.
    apply push_or_set_extends.
  - destruct (on_bot_command self ctx w) as [[w1 t1] r]. apply grown_from_refl.
  - destruct (on_message_file self ctx w) as [[w1 t1] r]. apply grown_from_refl.
  - destruct (on_message_text self ctx w) as [[w1 t1] r]. apply grown_from_refl.
Qed.

Lemma session_grows self (inputs : list (Input W)) w :
  grown_from self (fst (fst (session self inputs w))).
Proof.
  revert self w. induction inputs as [|i rest IH]; intros self w.
  - apply grown_from_refl.
  - cbn [session].
    pose proof (step_grows self i w) as Hstep.
    destruct (step self i w) as [[self1 w1] o].
    pose proof (IH self1 w1) as Hrest.
    destruct (session self1 rest w1) as [[self2 w2] os].
    cbn in *. exact (grown_from_trans _ _ _ Hstep Hrest).
Qed.

Lemma step_registration_ignores_world self (i : Input W) w w' :
  is_update i = false -> fst (fst (step self i w)) = fst (fst (step self i w')).
Proof. destruct i; cbn; try discriminate; reflexivity. Qed.

Lemma session_adapter_of_registrations self (inputs : list (Input W)) w w' :
  fst (fst (session self inputs w)) =
  fst (fst (session self (List.filter (fun i => negb (is_update i)) inputs) w')).
Proof.
  revert self w w'. induction inputs as [|i rest IH]; intros self w w'; [reflexivity|].
  cbn [session List.filter].
  destruct (is_update i) eqn:Hi; cbn [negb].
  - pose proof (step_update_keeps_adapter moment_format path_join fs_existsSync
                  fs_mkdirSync self i w Hi) as Hkeep.
    destruct (step self i w) as [[self1 w1] o]. cbn in Hkeep. subst self1.
    specialize (IH self w1 w').
    destruct (session self rest w1) as [[self2 w2] os]. exact IH.
  - cbn [session].
    pose proof (step_registration_ignores_world self i w w' Hi) as Hsame.
    destruct (step self i w) as [[self1 w1] o].
    destruct (step self i w') as [[self1' w1'] o']. cbn in Hsame. subst self1'.
    specialize (IH self1 w1 w1').
    destruct (session self1 rest w1) as [[self2 w2] os].
    destruct (session self1 _ w1') as [[self2' w2'] os']. exact IH.
Qed.

Lemma session_of_updates_keeps_adapter self (inputs : list (Input W)) w :
  fst (fst (session self (List.filter is_update inputs) w)) = self.
Proof.
  revert w. induction inputs as [|i rest IH]; intros w; [reflexivity|].
  cbn [List.filter]. destruct (is_update i) eqn:Hi; [|apply IH].
  cbn [session].
  pose proof (step_update_keeps_adapter moment_format path_join fs_existsSync
                  fs_mkdirSync self i w Hi) as Hkeep.
  destruct (step self i w) as [[self1 w1] o]. cbn in Hkeep. subst self1.
  specialize (IH w1).
  destruct (session self _ w1) as [[self2 w2] os]. exact IH.
Qed.

(** Whatever registrations and updates a session consists of, the
    adapter it ends with has the chat identity and the paths it started
    with, and every handler array it started with is still there, in the
    same order, at the front of the array of the same key: nothing is
    removed, replaced or reordered. Updates never change the adapter: the
    adapter a session ends with is the one its registrations alone give,
    whatever the updates in between were and whatever they did to the
    world, and a session of updates only ends with the adapter it
    started with. *)
Theorem session_keeps_configuration_and_handlers self (inputs : list (Input W)) w :
  grown_from self (fst (fst (session self inputs w))) /\
  (forall w', fst (fst (session self inputs w)) =
              fst (fst (session self
                          (List.filter (fun i => negb (is_update i)) inputs) w'))) /\
  fst (fst (session self (List.filter is_update inputs) w)) = self.
Proof.
  split; [apply session_grows|]. split.
  - intros w'. apply session_adapter_of_registrations.
  - apply session_of_updates_keeps_adapter.
Qed.

End IndependenceFacts.

(** ** More on escaping *)

Lemma esc_cons (c : ascii) (s : string) :
  esc (String c s) =
  if JS.in_class esc_class c then String "\" (String c (esc s)) else String c (esc s).
Proof. unfold esc. cbn [JS.replace_class]. destruct (JS.in_class esc_class c); reflexivity. Qed.

(** Escaping goes through concatenation: escaping two texts and joining
    them is escaping the joined text, so a text may be escaped piece by
    piece. *)
Theorem esc_concatenation (s t : string) :
  esc (String.append s t) = String.append (esc s) (esc t).
Proof.
  induction s as [|c s IH]; [reflexivity|].
  rewrite Names.append_cons, !esc_cons, IH.
  destruct (JS.in_class esc_class c); reflexivity.
Qed.

Lemma esc_length (s : string) :
  String.length (esc s) = String.length s + count_class esc_class s.
Proof.
  induction s as [|c s IH]; [reflexivity|].
  rewrite esc_cons. cbn [count_class String.length].
  destruct (JS.in_class esc_class c); cbn [String.length]; rewrite IH; lia.
Qed.

Lemma esc_count (s : string) : count_class esc_class (esc s) = count_class esc_class s.
Proof.
  induction s as [|c s IH]; [reflexivity|].
  rewrite esc_cons. cbn [count_class].
  destruct (JS.in_class esc_class c) eqn:E; cbn [count_class]; rewrite ?E, IH; reflexivity.
Qed.

Lemma esc_without_class_chars (s : string) : count_class esc_class s = 0 -> esc s = s.
Proof.
  induction s as [|c s IH]; [reflexivity|].
  rewrite esc_cons. cbn [count_class].
  destruct (JS.in_class esc_class c); [discriminate|].
  cbn. intros Hs. rewrite (IH Hs). reflexivity.
Qed.

(** The escaped text is longer than the text by the number of its
    characters of the class, and escaping an escaped text again changes
    it unless the text had no such character: [esc] must be applied
    exactly once. *)
Theorem esc_grows_and_is_not_idempotent (s : string) :
  String.length (esc s) = String.length s + count_class esc_class s /\
  (esc (esc s) = esc s <-> count_class esc_class s = 0) /\
  (esc s = s <-> count_class esc_class s = 0).
Proof.
  split; [apply esc_length|]. split; split.
  - intros Heq. apply (f_equal String.length) in Heq.
    rewrite (esc_length (esc s)), esc_count in Heq. lia.
  - intros H0. rewrite (esc_without_class_chars s H0). apply esc_without_class_chars, H0.
  - intros Heq. apply (f_equal String.length) in Heq. rewrite esc_length in Heq. lia.
  - apply esc_without_class_chars.
Qed.

(** In an escaped text every character of the class stands directly
    after a backslash, whatever text the escaped text is appended to. *)
Theorem esc_output_is_escaped (previous : ascii) (s : string) :
  class_chars_escaped previous (esc s) = true.
Proof.
  revert previous. induction s as [|c s IH]; intros previous; [reflexivity|].
  rewrite esc_cons.
  destruct (JS.in_class esc_class c) eqn:E; cbn [class_chars_escaped].
  - rewrite E, (IH c). reflexivity.
  - rewrite E, (IH c). reflexivity.
Qed.

(** ** The handlers an event may call, and how much it may send *)

Section ReachFacts.

Context {W : Type}.
Variable moment_format : W -> string.
Variable path_join : list string -> string.
Variable fs_existsSync : string -> W -> bool.
Variable fs_mkdirSync : string -> Async W unit.

Local Abbreviation on_message_file :=
  (on_message_file moment_format path_join fs_existsSync fs_mkdirSync).

Implicit Types (self : TelegramBotAdapter W) (ctx : Context W) (w : W).

Lemma boundary_callee_registered {H} ctx (call : H -> bool -> Async W HandlerResult)
      items start w c :
  In c (calls (effects_of (boundary ctx (run_chain call items start) w))) ->
  In (callee c) items.
Proof.
  rewrite boundary_calls. intros Hin.
  apply (in_map callee) in Hin.
  rewrite (run_chain_callees call items start w) in Hin.
  rewrite <- (firstn_skipn (length (calls (effects_of (run_chain call items start w))))
                           items).
  apply in_or_app. left. exact Hin.
Qed.

(** An event calls only handlers registered for it: a command update
    only entries of the array registered under its whole text after the
    first character (so not those registered under the bare command name
    when arguments or a bot name follow), a text update only entries of
    the text array, a file update only entries registered under its MIME
    type or under the wildcard; and only from an authorized chat. *)
Theorem events_call_only_their_own_handlers self ctx w :
  (forall c, In c (calls (effects_of (on_bot_command self ctx w))) ->
     unauthorized self ctx = false /\
     exists t items,
       message ctx ≫= text = Some t /\
       _command_handlers self !! JS.slice 1 t = Some items /\
       In (callee c) items) /\
  (forall c, In c (calls (effects_of (on_message_text self ctx w))) ->
     unauthorized self ctx = false /\ In (callee c) (_text_handlers self)) /\
  (forall c, In c (calls (effects_of (on_message_file self ctx w))) ->
     unauthorized self ctx = false /\
     exists m mime_type,
       msg ctx = Some m /\ getFileMimeType m = Some mime_type /\
       (In (callee c) (default [] (_file_handlers self !! mime_type)) \/
        In (callee c) (default [] (_file_handlers self !! "")))).
Proof.
  split; [|split].
  - intros c. rewrite on_bot_command_eq. unfold command_chain.
    destruct (unauthorized self ctx); [intros []|].
    destruct (message ctx ≫= text) as [t|]; [|intros []].
    cbn [fmap option_fmap option_map].
    destruct (JS.slice 1 t) as [|ch k] eqn:E; [intros []|].
    destruct (_command_handlers self !! String ch k) as [items|] eqn:El; [|intros []].
    intros Hin. split; [reflexivity|]. exists t, items. rewrite E.
    split; [reflexivity|]. split; [exact El|].
    exact (boundary_callee_registered _ _ _ _ _ _ Hin).
  - intros c. rewrite on_message_text_eq. unfold text_chain.
    destruct (unauthorized self ctx); [intros []|].
    destruct (_text_handlers self) as [|e l]; [intros []|].
    intros Hin. split; [reflexivity|].
    exact (boundary_callee_registered _ _ _ _ _ _ Hin).
  - intros c. rewrite on_message_file_eq. unfold file_key.
    destruct (unauthorized self ctx); [intros []|].
    destruct (msg ctx) as [m|]; [|intros []]. cbn [mbind option_bind].
    destruct (getFileMimeType m) as [[|ch mt]|] eqn:Em; try (intros []).
    destruct (match _file_handlers self !! String ch mt with
              | Some _ => Some (String ch mt)
              | None => match _file_handlers self !! "" with
                        | Some _ => Some (String ch mt)
                        | None => None
                        end
              end) as [key|] eqn:Ek; [|intros []].
    assert (key = String ch mt) as ->.
    { destruct (_file_handlers self !! String ch mt), (_file_handlers self !! "");
        congruence. }
    destruct (materialize _ _ _ _ self ctx w) as [[w1 t1] [f|]]; [|intros []].
    intros Hin. split; [reflexivity|]. exists m, (String ch mt).
    split; [reflexivity|]. split; [exact Em|].
    apply boundary_callee_registered in Hin. unfold file_chains in Hin.
    apply in_app_or in Hin. exact Hin.
Qed.

Lemma reply_to_at_most_one {H} (cs : list (Call H)) :
  length (flat_map reply_to cs) <= length cs.
Proof.
  induction cs as [|c cs IH]; [reflexivity|].
  cbn [flat_map]. rewrite length_app. cbn [length].
  assert (length (reply_to c) <= 1).
  { unfold reply_to. destruct (outcome c) as [r|]; [|cbn; lia].
    destruct (JS.truthy (answer r)); cbn; lia. }
  lia.
Qed.

Lemma boundary_reply_bound {H} ctx (call : H -> bool -> Async W HandlerResult)
      items start w :
  let effects := effects_of (boundary ctx (run_chain call items start) w) in
  length (calls effects) <= length items /\
  length (replies effects) <= length (calls effects) + 1.
Proof.
  cbn zeta. rewrite boundary_calls, boundary_replies, run_chain_replies. split.
  - pose proof (run_chain_callees call items start w) as Hc. cbn zeta in Hc.
    apply (f_equal (@length _)) in Hc. rewrite length_map, length_take in Hc. lia.
  - rewrite length_app.
    pose proof (reply_to_at_most_one (calls (effects_of (run_chain call items start w)))).
    destruct (snd (run_chain call items start w)); cbn [length]; lia.
Qed.

(** An event sends at most one reply per handler it calls, plus at most
    one more (the internal-error reply). *)
Theorem events_send_at_most_one_reply_per_call_plus_one self ctx w :
  length (replies (effects_of (on_bot_command self ctx w)))
    <= length (calls (effects_of (on_bot_command self ctx w))) + 1 /\
  length (replies (effects_of (on_message_text self ctx w)))
    <= length (calls (effects_of (on_message_text self ctx w))) + 1 /\
  length (replies (effects_of (on_message_file self ctx w)))
    <= length (calls (effects_of (on_message_file self ctx w))) + 1.
Proof.
  split; [|split].
  - rewrite on_bot_command_eq.
    destruct (command_chain self ctx); [apply boundary_reply_bound|cbn; lia].
  - rewrite on_message_text_eq.
    destruct (text_chain self ctx); [apply boundary_reply_bound|cbn; lia].
  - rewrite on_message_file_eq.
    destruct (file_key self ctx); [|cbn; lia].
    destruct (materialize _ _ _ _ self ctx w) as [[w1 t1] [f|]];
      [apply boundary_reply_bound|cbn; lia].
Qed.

End ReachFacts.

(** ** [sendMessage] *)

Section SendFacts.

Context {W : Type}.
Variable nodeAPI_sendMessage : string -> string -> option string -> Async W unit.
Variable bot_api_sendMessage : string -> string -> option string -> Async W unit.

Local Abbreviation sendMessage := (sendMessage nodeAPI_sendMessage bot_api_sendMessage).

(** [sendMessage] first tries the Node.js client and falls back to the
    bot's API exactly when that attempt rejects; both attempts carry the
    configured chat, the escaped text (from which the text can be read
    back) and the MarkdownV2 mode; and [sendMessage] rejects exactly when
    both attempts reject. *)
Theorem sendMessage_tries_node_then_bot (self : TelegramBotAdapter W) (text : string) (w : W) :
  let chat := _chat_id self in
  let first := nodeAPI_sendMessage chat (esc text) MarkdownV2 w in
  let second := bot_api_sendMessage chat (esc text) MarkdownV2 (fst first) in
  let res := sendMessage self text w in
  unesc (esc text) = text /\
  (snd first <> Rejected ->
   res = (fst first, [Via_node chat (esc text) MarkdownV2], Fulfilled tt)) /\
  (snd first = Rejected ->
   res = (fst second, [Via_node chat (esc text) MarkdownV2;
                       Via_bot chat (esc text) MarkdownV2], snd second)) /\
  (snd res = Rejected <-> snd first = Rejected /\ snd second = Rejected).
Proof.
  cbn zeta. unfold sendMessage.
  split; [apply unesc_esc|].
  destruct (nodeAPI_sendMessage (_chat_id self) (esc text) MarkdownV2 w) as [w1 [[]|]];
    cbn [fst snd].
  - split; [reflexivity|]. split; [discriminate|]. split; [discriminate|]. intros [[=] _].
  - destruct (bot_api_sendMessage (_chat_id self) (esc text) MarkdownV2 w1) as [w2 r];
      cbn [fst snd].
    split; [intros Hc; contradiction|]. split; [reflexivity|]. tauto.
Qed.

End SendFacts.

(** ** The request address and the [fetch] override *)

Module Urls.

Lemma split_nonempty (sep : ascii) (s : string) : JSText.split sep s <> [].
Proof.
  destruct s as [|c s]; cbn; [discriminate|].
  destruct (Ascii.eqb c sep); [discriminate|].
  destruct (JSText.split sep s); discriminate.
Qed.

Lemma split_without_separator (sep : ascii) (s : string) :
  occurs sep s = false -> JSText.split sep s = [s].
Proof.
  induction s as [|c s IH]; [reflexivity|].
  cbn [occurs JSText.split]. intros Hno.
  apply orb_false_iff in Hno as [Hc Hs].
  rewrite Ascii.eqb_sym, Hc, (IH Hs). reflexivity.
Qed.

Lemma split_at_separator (sep : ascii) (s m : string) :
  JSText.split sep (String.append s (String sep m)) =
  JSText.split sep s ++ JSText.split sep m.
Proof.
  induction s as [|c s IH].
  - change (String.append "" (String sep m)) with (String sep m).
    cbn [JSText.split]. rewrite Ascii.eqb_refl. reflexivity.
  - rewrite Names.append_cons. cbn [JSText.split]. rewrite IH.
    destruct (Ascii.eqb c sep); [reflexivity|].
    pose proof (split_nonempty sep s) as Hne.
    destruct (JSText.split sep s) as [|first others]; [contradiction|reflexivity].
Qed.

Lemma pop_last (parts : list string) (m : string) : JSText.pop (parts ++ [m]) = Some m.
Proof.
  unfold JSText.pop. rewrite map_app. cbn. apply last_last.
Qed.

End Urls.

(** The [fetch] override recovers from an address built by
    [makeRequest] the method it was built for, so the request it hands to
    [makeRequest] goes to the address grammY asked for; this needs the
    method name to be free of [/]. *)
Theorem fetch_override_recovers_method (token method : string) :
  occurs "/" method = false ->
  fetch_override (request_url token method) = Some method /\
  (forall recovered, fetch_override (request_url token method) = Some recovered ->
                     request_url token recovered = request_url token method).
Proof.
  intros Hno.
  assert (Hget : fetch_override (request_url token method) = Some method).
  { unfold fetch_override, request_url.
    change (JSText.includes "api.telegram.org"
              ("https://api.telegram.org/bot" ++ token ++ "/" ++ method)%string)
      with true. cbn iota.
    change ("https://api.telegram.org/bot" ++ token ++ "/" ++ method)%string
      with (String.append "https://api.telegram.org/bot"
              (String.append token (String "/" method))).
    rewrite <- Names.append_assoc, Urls.split_at_separator.
    rewrite (Urls.split_without_separator "/" method Hno), Urls.pop_last.
    reflexivity. }
  split; [exact Hget|].
  intros recovered Hrec. rewrite Hget in Hrec. injection Hrec as <-. reflexivity.
Qed.

Lemma fetch_override_recovers_method_witness :
  occurs "/" "sendMessage" = false /\
  fetch_override (request_url Cases.token "sendMessage") = Some "sendMessage".
Proof.
  split; [reflexivity|].
  apply (fetch_override_recovers_method Cases.token "sendMessage"). reflexivity.
Defined.

(** ** Token validation *)

Module Tokens.

Lemma all_chars_app (p : ascii -> bool) (s t : string) :
  all_chars p (String.append s t) = all_chars p s && all_chars p t.
Proof.
  induction s as [|c s IH]; [reflexivity|].
  rewrite Names.append_cons. cbn [all_chars]. rewrite IH. apply andb_assoc.
Qed.

Lemma span_digits_spec (s : string) :
  s = String.append (fst (span_digits s)) (snd (span_digits s)) /\
  all_chars is_digit (fst (span_digits s)) = true /\
  match snd (span_digits s) with
  | String c _ => is_digit c = false
  | EmptyString => True
  end.
Proof.
  induction s as [|c s IH]; [cbn; auto|].
  cbn [span_digits]. destruct (is_digit c) eqn:E.
  - destruct (span_digits s) as [ds after]. cbn [fst snd] in *.
    destruct IH as (Hs & Hd & Ha). rewrite Names.append_cons, <- Hs.
    cbn [all_chars]. rewrite E, Hd. auto.
  - cbn [fst snd]. rewrite E. auto.
Qed.

Lemma span_digits_unique (ds : string) (c : ascii) (after : string) :
  all_chars is_digit ds = true -> is_digit c = false ->
  span_digits (String.append ds (String c after)) = (ds, String c after).
Proof.
  intros Hds Hc. induction ds as [|d ds IH].
  - change (String.append "" (String c after)) with (String c after).
    cbn [span_digits]. rewrite Hc. reflexivity.
  - rewrite Names.append_cons. cbn [span_digits all_chars] in *.
    apply andb_true_iff in Hds as [Hd Hds]. rewrite Hd, (IH Hds). reflexivity.
Qed.

Lemma tokenRegex_test_language (s : string) :
  tokenRegex_test s = true <-> tokenRegex_language s.
Proof.
  unfold tokenRegex_test, tokenRegex_language. split.
  - destruct (span_digits_spec s) as (Hs & Hd & _).
    destruct (span_digits s) as [[|d ds] [|sep body]]; try discriminate.
    cbn [fst snd] in *. intros Htest.
    apply andb_true_iff in Htest as [Htest Hlen].
    apply andb_true_iff in Htest as [Hsep Hbody].
    apply Ascii.eqb_eq in Hsep. subst sep.
    exists (String d ds), body. repeat split; try assumption; try discriminate.
    apply orb_true_iff in Hlen as [Hl|Hl]; apply Nat.eqb_eq in Hl; auto.
  - intros (bot_id & bot_token & -> & Hne & Hd & Hb & Hlen).
    rewrite span_digits_unique by (assumption || reflexivity).
    destruct bot_id as [|d ds]; [contradiction|].
    rewrite Ascii.eqb_refl, Hb. cbn [andb].
    destruct Hlen as [->| ->]; reflexivity.
Qed.

Section Trim.

Variable white : ascii -> bool.

Lemma trimStart_head (s : string) :
  match JSText.trimStart white s with
  | String c _ => white c = false
  | EmptyString => True
  end.
Proof.
  induction s as [|c s IH]; [exact I|].
  cbn [JSText.trimStart]. destruct (white c) eqn:E; [exact IH|exact E].
Qed.

Lemma trimEnd_keeps_head (c : ascii) (s : string) :
  white c = false ->
  exists kept, JSText.trimEnd white (String c s) = String c kept.
Proof.
  intros Hc. cbn [JSText.trimEnd]. rewrite Hc.
  destruct (JSText.trimEnd white s); eauto.
Qed.

Lemma trimEnd_idempotent (s : string) :
  JSText.trimEnd white (JSText.trimEnd white s) = JSText.trimEnd white s.
Proof.
  induction s as [|c s IH]; [reflexivity|].
  cbn [JSText.trimEnd].
  destruct (JSText.trimEnd white s) as [|d kept] eqn:E.
  - destruct (white c) eqn:Ec; [reflexivity|]. cbn [JSText.trimEnd]. rewrite Ec. reflexivity.
  - change (JSText.trimEnd white (String c (String d kept)))
      with (match JSText.trimEnd white (String d kept) with
            | EmptyString => if white c then EmptyString else String c EmptyString
            | k => String c k
            end).
    rewrite IH. reflexivity.
Qed.

Lemma trim_idempotent (s : string) :
  JSText.trim white (JSText.trim white s) = JSText.trim white s.
Proof.
  unfold JSText.trim.
  pose proof (trimStart_head s) as Hhead.
  destruct (JSText.trimStart white s) as [|c rest]; [reflexivity|].
  destruct (trimEnd_keeps_head c rest Hhead) as [kept Hk].
  rewrite Hk. cbn [JSText.trimStart]. rewrite Hhead, <- Hk.
  apply trimEnd_idempotent.
Qed.

End Trim.

End Tokens.

Section TokenFacts.

Context {W : Type}.
Variable white : ascii -> bool.

(** [isValidBotToken] accepts exactly the tokens that, once trimmed, are
    one or more digits, a colon, and 34 or 35 characters out of letters,
    digits, underscore and hyphen. *)
Theorem isValidBotToken_accepts_the_token_format (token : string) :
  isValidBotToken white token = true <-> tokenRegex_language (JSText.trim white token).
Proof.
  unfold isValidBotToken. destruct token as [|c t].
  - split; [discriminate|].
    intros (bot_id & bot_token & Heq & _). cbn in Heq.
    destruct bot_id; discriminate.
  - apply Tokens.tokenRegex_test_language.
Qed.

Lemma isValidBotToken_trim (token : string) :
  isValidBotToken white (JSText.trim white token) = isValidBotToken white token.
Proof.
  unfold isValidBotToken.
  destruct (JSText.trim white token) as [|c t] eqn:E.
  - destruct token; reflexivity.
  - rewrite <- E, Tokens.trim_idempotent.
    destruct token as [|d u]; [discriminate|reflexivity].
Qed.

(** Validation does not see white space around the token: a token and
    its trimmed form are both valid or both invalid, and trimming twice
    is trimming once. *)
Theorem isValidBotToken_ignores_surrounding_space (token : string) :
  isValidBotToken white (JSText.trim white token) = isValidBotToken white token /\
  JSText.trim white (JSText.trim white token) = JSText.trim white token.
Proof. split; [apply isValidBotToken_trim|apply Tokens.trim_idempotent]. Qed.

Variable saveSettings : Settings.TelegramBotPluginSettings -> Async W unit.

(** The token steps of [resetBot] leave the trimmed token in the
    settings, the other settings as they were. When trimming changes
    nothing they save nothing, leave the world alone and end by the
    validity of the token. When trimming changes the token they save the
    settings once; if that save is rejected, [resetBot] throws before it
    validates (the trimmed token staying in memory), otherwise they end
    by the validity of the token. Run again on the settings they left,
    they save nothing, cannot fail at saving, and end by that same
    validity. A token that gets [onload] as far as [resetBot] is not
    rejected by the validation inside [resetBot], and a token [resetBot]
    accepts gets [onload] through the next time. *)
Theorem resetBot_token_is_stable (settings : Settings.TelegramBotPluginSettings) (w : W) :
  let trimmed := JSText.trim white (Settings.botToken settings) in
  let stored := {| Settings.botToken := trimmed;
                   Settings.chatId := Settings.chatId settings;
                   Settings.downloadPath := Settings.downloadPath settings |} in
  let verdict := if isValidBotToken white (Settings.botToken settings)
                 then Token_accepted else Token_rejected in
  let res := resetBot_token white saveSettings settings w in
  fst (fst res) = stored /\
  (trimmed = Settings.botToken settings -> res = (settings, w, verdict)) /\
  (trimmed <> Settings.botToken settings ->
   res = (stored, fst (saveSettings stored w),
          match snd (saveSettings stored w) with
          | Fulfilled _ => verdict
          | Rejected => Save_failed
          end)) /\
  (forall w2, resetBot_token white saveSettings stored w2 = (stored, w2, verdict)) /\
  (onload white settings = Calls_resetBot -> snd res <> Token_rejected) /\
  (snd res = Token_accepted -> onload white (fst (fst res)) = Calls_resetBot).
Proof.
  cbn zeta.
  set (trimmed := JSText.trim white (Settings.botToken settings)).
  set (stored := {| Settings.botToken := trimmed;
                    Settings.chatId := Settings.chatId settings;
                    Settings.downloadPath := Settings.downloadPath settings |}).
  set (verdict := if isValidBotToken white (Settings.botToken settings)
                  then Token_accepted else Token_rejected).
  assert (Honload : forall s, onload white s = Calls_resetBot <->
                              isValidBotToken white (Settings.botToken s) = true).
  { intros s. unfold onload.
    destruct (Settings.botToken s) as [|c t] eqn:E.
    - split; discriminate.
    - destruct (isValidBotToken white (String c t)); split; (reflexivity || discriminate). }
  assert (Hvalid : isValidBotToken white trimmed
                   = isValidBotToken white (Settings.botToken settings))
    by apply isValidBotToken_trim.
  assert (Hsame : trimmed = Settings.botToken settings ->
                  resetBot_token white saveSettings settings w = (settings, w, verdict)).
  { intros Heq. unfold resetBot_token. fold trimmed. rewrite Heq, String.eqb_refl.
    cbn [negb]. unfold verdict.
    destruct (isValidBotToken white (Settings.botToken settings)); reflexivity. }
  assert (Hchanged : trimmed <> Settings.botToken settings ->
                     resetBot_token white saveSettings settings w =
                     (stored, fst (saveSettings stored w),
                      match snd (saveSettings stored w) with
                      | Fulfilled _ => verdict
                      | Rejected => Save_failed
                      end)).
  { intros Hne. unfold resetBot_token. fold trimmed.
    destruct (String.eqb_spec trimmed (Settings.botToken settings)) as [Heq|_];
      [contradiction|].
    cbn [negb]. fold stored. cbn [Settings.botToken stored].
    destruct (saveSettings stored w) as [w1 [[]|]]; cbn [fst snd]; [|reflexivity].
    unfold stored at 1. cbn [Settings.botToken]. rewrite Hvalid. unfold verdict.
    destruct (isValidBotToken white (Settings.botToken settings)); reflexivity. }
  assert (Hstored : fst (fst (resetBot_token white saveSettings settings w)) = stored).
  { destruct (String.eqb_spec trimmed (Settings.botToken settings)) as [Heq|Hne].
    - rewrite (Hsame Heq). cbn [fst]. unfold stored. rewrite Heq.
      destruct settings; reflexivity.
    - rewrite (Hchanged Hne). reflexivity. }
  split; [exact Hstored|]. split; [exact Hsame|]. split; [exact Hchanged|]. split.
  - intros w2. unfold resetBot_token. cbn [Settings.botToken stored].
    unfold trimmed at 1. rewrite Tokens.trim_idempotent. fold trimmed.
    rewrite String.eqb_refl. cbn [negb]. rewrite Hvalid. unfold verdict.
    destruct (isValidBotToken white (Settings.botToken settings)); reflexivity.
  - split.
    + intros Hon. apply Honload in Hon.
      destruct (String.eqb_spec trimmed (Settings.botToken settings)) as [Heq|Hne].
      * rewrite (Hsame Heq). cbn [snd]. unfold verdict. rewrite Hon. discriminate.
      * rewrite (Hchanged Hne). cbn [snd]. unfold verdict. rewrite Hon.
        destruct (snd (saveSettings stored w)); discriminate.
    + intros Hok. rewrite Hstored. apply Honload. cbn [Settings.botToken stored].
      rewrite Hvalid.
      destruct (String.eqb_spec trimmed (Settings.botToken settings)) as [Heq|Hne].
      * rewrite (Hsame Heq) in Hok. cbn [snd] in Hok. unfold verdict in Hok.
        destruct (isValidBotToken white (Settings.botToken settings));
          [reflexivity|discriminate].
      * rewrite (Hchanged Hne) in Hok. cbn [snd] in Hok. unfold verdict in Hok.
        destruct (snd (saveSettings stored w)); [|discriminate].
        destruct (isValidBotToken white (Settings.botToken settings));
          [reflexivity|discriminate].
Qed.

End TokenFacts.

(** ** The "/start" command *)

Section StartFacts.

Context {W : Type}.
Variable saveSettings : Settings.TelegramBotPluginSettings -> Async W unit.

Local Abbreviation on_start := (on_start saveSettings).
Local Abbreviation on_starts := (on_starts saveSettings).

Implicit Types (settings : Settings.TelegramBotPluginSettings) (ctx : StartContext) (w : W).

Lemma on_start_bound settings ctx w :
  Settings.chatId settings <> "" ->
  fst (fst (on_start settings ctx w)) = settings /\ snd (fst (on_start settings ctx w)) = w /\
  snd (on_start settings ctx w) =
    if String.eqb (Settings.chatId settings) (JS.String_ (start_chatId ctx))
    then [already_working] else [].
Proof.
  intros Hne. unfold on_start.
  destruct (String.eqb _ (JS.String_ _)); [auto|].
  destruct (String.eqb_spec (Settings.chatId settings) ""); [contradiction|auto].
Qed.

Lemma on_start_unbound settings ctx w :
  Settings.chatId settings = "" ->
  Settings.chatId (fst (fst (on_start settings ctx w))) = JS.String_ (start_chatId ctx) /\
  Settings.botToken (fst (fst (on_start settings ctx w))) = Settings.botToken settings /\
  Settings.downloadPath (fst (fst (on_start settings ctx w)))
    = Settings.downloadPath settings.
Proof.
  intros Hempty. unfold on_start. rewrite Hempty.
  destruct (String.eqb_spec "" (JS.String_ (start_chatId ctx))) as [Heq|_].
  { exfalso. exact (String_nonempty _ (eq_sym Heq)). }
  cbn [String.eqb negb].
  destruct (saveSettings _ w) as [w1 [[]|]]; cbn; auto.
Qed.

(** The chat is bound by the first "/start" an unbound plugin receives
    and by nothing after it: after any run of "/start" commands the
    stored chat is the one stored before, if there was one, and otherwise
    the chat of the first command of the run; token and download path are
    never touched. This does not depend on whether saving succeeds. *)
Theorem start_binds_the_first_chat_only settings (updates : list StartContext) w :
  let settings' := fst (fst (on_starts settings updates w)) in
  Settings.chatId settings' =
    (match Settings.chatId settings, updates with
     | EmptyString, ctx :: _ => JS.String_ (start_chatId ctx)
     | bound, _ => bound
     end) /\
  Settings.botToken settings' = Settings.botToken settings /\
  Settings.downloadPath settings' = Settings.downloadPath settings.
Proof.
  cbn zeta.
  assert (Hbound : forall updates settings w,
            Settings.chatId settings <> "" ->
            fst (fst (on_starts settings updates w)) = settings).
  { clear. intros updates. induction updates as [|ctx rest IH]; intros settings w Hne.
    - reflexivity.
    - cbn [on_starts]. destruct (on_start_bound settings ctx w Hne) as (H1 & _).
      destruct (on_start settings ctx w) as [[s1 w1] sent]. cbn [fst] in H1. subst s1.
      specialize (IH settings w1 Hne).
      destruct (on_starts settings rest w1) as [[s2 w2] sents]. exact IH. }
  destruct (Settings.chatId settings) as [|c bound] eqn:Echat.
  - destruct updates as [|ctx rest]; [cbn; auto|].
    cbn [on_starts].
    destruct (on_start_unbound settings ctx w Echat) as (H1 & H2 & H3).
    destruct (on_start settings ctx w) as [[s1 w1] sent]. cbn [fst] in *.
    assert (Hne : Settings.chatId s1 <> "") by (rewrite H1; apply String_nonempty).
    specialize (Hbound rest s1 w1 Hne).
    destruct (on_starts s1 rest w1) as [[s2 w2] sents]. cbn [fst] in *. subst s2. auto.
  - rewrite Hbound by (rewrite Echat; discriminate). rewrite Echat. auto.
Qed.

(** Once a chat is bound, a "/start" from that chat is answered with
    "Already working!" and one from any other chat is not answered at
    all; neither changes the settings nor saves anything. In particular
    the chat that made the first contact gets that answer on its next
    "/start" even if saving the binding had failed. *)
Theorem start_after_binding settings ctx w :
  (Settings.chatId settings <> "" ->
   on_start settings ctx w =
     (settings, w,
      if String.eqb (Settings.chatId settings) (JS.String_ (start_chatId ctx))
      then [already_working] else [])) /\
  (Settings.chatId settings = "" ->
   forall w2,
     on_start (fst (fst (on_start settings ctx w))) ctx w2 =
       (fst (fst (on_start settings ctx w)), w2, [already_working])).
Proof.
  split.
  - intros Hne. destruct (on_start_bound settings ctx w Hne) as (H1 & H2 & H3).
    destruct (on_start settings ctx w) as [[s1 w1] sent]. cbn [fst snd] in *. congruence.
  - intros Hempty w2.
    destruct (on_start_unbound settings ctx w Hempty) as (H1 & _).
    set (s1 := fst (fst (on_start settings ctx w))) in *.
    assert (Hne : Settings.chatId s1 <> "") by (rewrite H1; apply String_nonempty).
    destruct (on_start_bound s1 ctx w2 Hne) as (A1 & A2 & A3).
    rewrite H1, String.eqb_refl in A3.
    destruct (on_start s1 ctx w2) as [[s2 w3] sent]. cbn [fst snd] in *. congruence.
Qed.

(** The first contact is greeted exactly when the binding could be
    saved; the settings handed to [saveSettings] already carry the new
    chat. *)
Theorem start_greets_when_saved settings ctx w :
  Settings.chatId settings = "" ->
  let bound := {| Settings.botToken := Settings.botToken settings;
                  Settings.chatId := JS.String_ (start_chatId ctx);
                  Settings.downloadPath := Settings.downloadPath settings |} in
  on_start settings ctx w =
    (bound, fst (saveSettings bound w),
     match snd (saveSettings bound w) with
     | Fulfilled _ => [greeting (from_first_name ctx)]
     | Rejected => []
     end).
Proof.
  intros Hempty. cbn zeta. unfold on_start. rewrite Hempty.
  destruct (String.eqb_spec "" (JS.String_ (start_chatId ctx))) as [Heq|_].
  { exfalso. exact (String_nonempty _ (eq_sym Heq)). }
  cbn [String.eqb negb].
  destruct (saveSettings _ w) as [w1 [[]|]]; reflexivity.
Qed.

(** The adapter [resetBot] constructs from settings bound by a first
    "/start" of chat [c] lets through exactly the updates of chat [c];
    the adapter constructed from the settings as they were before the
    contact rejects that chat too, until the bot is reset. *)
Theorem binding_takes_effect_at_the_next_reset settings (c : Z) first_name w
        (app : App W) (vault_path : string) (ctx : Context W) :
  Settings.chatId settings = "" ->
  let start := {| start_chatId := Some c; from_first_name := first_name |} in
  let settings' := fst (fst (on_start settings start w)) in
  let before := constructor app (Settings.chatId settings) vault_path
                            (Settings.downloadPath settings) in
  let after := constructor app (Settings.chatId settings') vault_path
                           (Settings.downloadPath settings') in
  unauthorized before ctx = true /\
  (unauthorized after ctx = false <-> chatId ctx = Some c).
Proof.
  intros Hempty. cbn zeta. split.
  - apply unauthorized_true. cbn [_chat_id constructor]. rewrite Hempty.
    apply String_nonempty.
  - apply unauthorized_false_iff. cbn [_chat_id constructor].
    apply (on_start_unbound settings {| start_chatId := Some c;
                                        from_first_name := first_name |} w Hempty).
Qed.

End StartFacts.

(** ** The start-up retry loop *)

Section RetryFacts.

Context {W : Type}.
Variable bot_start : W -> W * option StartError.
Variable sleep : nat -> W -> W.

Local Abbreviation start_loop := (start_loop bot_start sleep).

(** The loop always ends within three iterations, and how it ends is
    decided by the attempts in order. An attempt that starts the bot ends
    the loop with the bot started; an attempt that fails with anything
    but a conflict ends the loop at once with that failure, whether it is
    the first, the second or the third attempt. A first conflict is
    followed by a wait of 2000 ms and a second attempt, a second conflict
    by a wait of 4000 ms and a third attempt, and a third conflict, with
    no further wait, by giving up. So the loop gives up exactly when all
    three attempts end in a conflict, and it waits only after a
    conflict. *)
Theorem start_loop_tries_three_times (fuel : nat) (w : W) :
  3 <= fuel ->
  let first := bot_start w in
  let second := bot_start (sleep 2000 (fst first)) in
  let third := bot_start (sleep 4000 (fst second)) in
  let res := start_loop fuel 0 w in
  res =
  match snd first with
  | None => (fst first, [Start_attempt], Some Bot_started)
  | Some Other_error => (fst first, [Start_attempt], Some Start_failed)
  | Some Conflict_409 =>
      match snd second with
      | None =>
          (fst second, [Start_attempt; Waited 2000; Start_attempt], Some Bot_started)
      | Some Other_error =>
          (fst second, [Start_attempt; Waited 2000; Start_attempt], Some Start_failed)
      | Some Conflict_409 =>
          match snd third with
          | None =>
              (fst third,
               [Start_attempt; Waited 2000; Start_attempt; Waited 4000; Start_attempt],
               Some Bot_started)
          | Some Other_error =>
              (fst third,
               [Start_attempt; Waited 2000; Start_attempt; Waited 4000; Start_attempt],
               Some Start_failed)
          | Some Conflict_409 =>
              (fst third,
               [Start_attempt; Waited 2000; Start_attempt; Waited 4000; Start_attempt],
               Some Gave_up)
          end
      end
  end /\
  (snd res = Some Gave_up <->
   snd first = Some Conflict_409 /\ snd second = Some Conflict_409 /\
   snd third = Some Conflict_409) /\
  (snd res = Some Start_failed <->
   snd first = Some Other_error \/
   (snd first = Some Conflict_409 /\ snd second = Some Other_error) \/
   (snd first = Some Conflict_409 /\ snd second = Some Conflict_409 /\
    snd third = Some Other_error)).
Proof.
  intros Hfuel. destruct fuel as [|[|[|fuel]]]; try lia. clear Hfuel.
  cbn zeta. cbn [start_loop maxRetries Nat.ltb Nat.leb Nat.mul Nat.add].
  destruct (bot_start w) as [w1 [[|]|]]; cbn [fst snd];
    [destruct (bot_start (sleep 2000 w1)) as [w2 [[|]|]]; cbn [fst snd];
     [destruct (bot_start (sleep 4000 w2)) as [w3 [[|]|]]; cbn [fst snd]| |]| |];
    (split; [reflexivity|]);
    (split; [split; [intros Hr|intros (H1 & H2 & H3)]; (discriminate || auto)|]);
    (split; [intros Hr; (discriminate || auto)|]);
    intros [H1|[(H1 & H2)|(H1 & H2 & H3)]]; (discriminate || reflexivity).
Qed.

End RetryFacts.

(** ** The further properties on concrete sessions *)

Lemma unconfigured_adapter_rejects_everything_witness :
  let self := addCommandHandler (constructor Demo.app "" "/vault" "inbox")
                "ping" (Demo.answering "a" (Demo.says "pong")) "unit-a" in
  _chat_id self = "" /\
  on_bot_command self (Demo.text_update 42 "/ping") [] = ([], [], Fulfilled tt).
Proof.
  cbn zeta. split; [reflexivity|].
  apply (unconfigured_adapter_rejects_everything
           Demo.moment_format Demo.path_join Demo.fs_existsSync Demo.fs_mkdirSync
           _ (Demo.text_update 42 "/ping") []).
  reflexivity.
Defined.

Lemma guard_accepts_exactly_the_configured_chat_witness :
  JS.safe_integer 42 /\
  (forall z, chatId (Demo.text_update 42 "/ping") = Some z -> JS.safe_integer z) /\
  _chat_id Demo.adapter = JS.String_ (Some 42%Z) /\
  (unauthorized Demo.adapter (Demo.text_update 42 "/ping") = false <->
   chatId (Demo.text_update 42 "/ping") = Some 42%Z) /\
  unauthorized Demo.adapter (Demo.text_update 7 "/ping") = true.
Proof.
  assert (Hsafe : JS.safe_integer 42) by (unfold JS.safe_integer; lia).
  assert (Hctx : forall z, chatId (Demo.text_update 42 "/ping") = Some z ->
                           JS.safe_integer z).
  { intros z [= <-]. exact Hsafe. }
  split; [exact Hsafe|]. split; [exact Hctx|]. split; [reflexivity|]. split.
  - apply (guard_accepts_exactly_the_configured_chat Demo.adapter
             (Demo.text_update 42 "/ping") 42%Z Hsafe Hctx).
    reflexivity.
  - reflexivity.
Defined.

Lemma unregistered_updates_are_silent_witness :
  let self := addCommandHandler Demo.adapter "ping"
                (Demo.answering "a" (Demo.says "pong")) "unit-a" in
  let ctx := Demo.text_update 42 "/ping now" in
  message ctx ≫= text = Some "/ping now" /\
  _command_handlers self !! JS.slice 1 "/ping now" = None /\
  on_bot_command self ctx [] = ([], [], Fulfilled tt).
Proof.
  cbn zeta. split; [reflexivity|]. split; [reflexivity|].
  apply (proj1 (unregistered_updates_are_silent _ (Demo.text_update 42 "/ping now") [])
               "/ping now"); reflexivity.
Defined.

Lemma unclassifiable_file_is_dropped_witness :
  let self := addFileHandler Demo.adapter (Demo.file_answering "any" (Demo.says "stored"))
                             "unit-any" None in
  let ctx := Demo.file_update 42 None "documents/file_1.bin" in
  getFileMimeType (Demo.document_message None) = None /\
  on_message_file Demo.moment_format Demo.path_join Demo.fs_existsSync Demo.fs_mkdirSync
    self ctx [] = ([], [], Fulfilled tt).
Proof.
  cbn zeta. split; [reflexivity|].
  apply (unclassifiable_file_is_dropped
           Demo.moment_format Demo.path_join Demo.fs_existsSync Demo.fs_mkdirSync).
  right. exists (Demo.document_message None). split; [reflexivity|]. left. reflexivity.
Defined.

Lemma failed_materialization_sends_one_error_witness :
  let self := addFileHandler Demo.adapter (Demo.file_answering "any" (Demo.says "stored"))
                             "unit-any" None in
  let ctx := Cases.unreachable_file 42 (Some "application/pdf") in
  file_key self (ctx true) = Some "application/pdf" /\
  file_key self (ctx false) = Some "application/pdf" /\
  on_message_file Demo.moment_format Demo.path_join Demo.fs_existsSync Demo.fs_mkdirSync
    self (ctx true) [] = (["reply attempted"], [Replied internal_error None], Fulfilled tt) /\
  on_message_file Demo.moment_format Demo.path_join Demo.fs_existsSync Demo.fs_mkdirSync
    self (ctx false) [] = (["reply attempted"], [Replied internal_error None], Rejected).
Proof.
  cbn zeta.
  set (self := addFileHandler Demo.adapter _ "unit-any" None).
  assert (Hon : file_key self (Cases.unreachable_file 42 (Some "application/pdf") true)
                = Some "application/pdf") by reflexivity.
  assert (Hoff : file_key self (Cases.unreachable_file 42 (Some "application/pdf") false)
                 = Some "application/pdf") by reflexivity.
  split; [exact Hon|]. split; [exact Hoff|]. split.
  - apply (proj1 (proj2 (failed_materialization_sends_one_error
             Demo.moment_format Demo.path_join Demo.fs_existsSync Demo.fs_mkdirSync
             self (Cases.unreachable_file 42 (Some "application/pdf") true) []
             "application/pdf" Hon)) []).
    reflexivity.
  - apply (proj1 (proj2 (failed_materialization_sends_one_error
             Demo.moment_format Demo.path_join Demo.fs_existsSync Demo.fs_mkdirSync
             self (Cases.unreachable_file 42 (Some "application/pdf") false) []
             "application/pdf" Hoff)) []).
    reflexivity.
Defined.

Lemma registration_leaves_other_events_alone_witness :
  let ctx := Demo.text_update 42 "/ping" in
  message ctx ≫= text = Some "/ping" /\
  JS.slice 1 "/ping" <> "pong" /\
  on_bot_command (addCommandHandler Demo.adapter "pong" Demo.throwing "unit-b") ctx []
  = on_bot_command Demo.adapter ctx [].
Proof.
  cbn zeta. split; [reflexivity|]. split; [discriminate|].
  destruct (registration_leaves_other_events_alone
              Demo.moment_format Demo.path_join Demo.fs_existsSync Demo.fs_mkdirSync
              Demo.adapter (Demo.text_update 42 "/ping") [])
    as (_ & _ & _ & _ & _ & _ & Hcommand & _).
  apply (Hcommand "pong" Demo.throwing "unit-b" "/ping"); [reflexivity|discriminate].
Defined.

Lemma events_call_only_their_own_handlers_witness :
  let self := addCommandHandler Demo.adapter "ping"
                (Demo.answering "a" (Demo.says "pong")) "unit-a" in
  let ctx := Demo.text_update 42 "/ping" in
  let c := {| callee := {| handler := Demo.answering "a" (Demo.says "pong");
                           unit_name := "unit-a" |};
              flag := false;
              outcome := Fulfilled (Demo.says "pong") |} in
  In c (calls (effects_of (on_bot_command self ctx []))) /\
  unauthorized self ctx = false.
Proof.
  cbn zeta.
  assert (Hin : In {| callee := {| handler := Demo.answering "a" (Demo.says "pong");
                                   unit_name := "unit-a" |};
                      flag := false;
                      outcome := Fulfilled (Demo.says "pong") |}
                   (calls (effects_of (on_bot_command
                      (addCommandHandler Demo.adapter "ping"
                         (Demo.answering "a" (Demo.says "pong")) "unit-a")
                      (Demo.text_update 42 "/ping") []))))
    by (left; reflexivity).
  split; [exact Hin|].
  exact (proj1 (proj1 (events_call_only_their_own_handlers
                  Demo.moment_format Demo.path_join Demo.fs_existsSync Demo.fs_mkdirSync
                  _ (Demo.text_update 42 "/ping") []) _ Hin)).
Defined.

Lemma sendMessage_tries_node_then_bot_witness :
  snd (Cases.node_down "42" (esc "1+1=2") MarkdownV2 []) = Rejected /\
  sendMessage Cases.node_down Cases.bot_up Demo.adapter "1+1=2" [] =
    (["node failed"; "1\+1\=2"],
     [Via_node "42" "1\+1\=2" MarkdownV2; Via_bot "42" "1\+1\=2" MarkdownV2],
     Fulfilled tt).
Proof.
  split; [reflexivity|].
  apply (proj1 (proj2 (proj2 (sendMessage_tries_node_then_bot
           Cases.node_down Cases.bot_up Demo.adapter "1+1=2" [])))).
  reflexivity.
Defined.

Lemma resetBot_token_is_stable_witness :
  let padded := Cases.settings (String.append "  " (String.append Cases.token " ")) "" in
  let stored := Cases.settings Cases.token "" in
  JSText.trim Cases.white (Settings.botToken padded) <> Settings.botToken padded /\
  onload Cases.white padded = Calls_resetBot /\
  resetBot_token Cases.white Cases.saving padded [] = (stored, ["saved "], Token_accepted) /\
  resetBot_token Cases.white Cases.not_saving padded [] = (stored, [], Save_failed) /\
  resetBot_token Cases.white Cases.not_saving stored [] = (stored, [], Token_accepted).
Proof.
  cbn zeta.
  assert (Hne : JSText.trim Cases.white
                  (Settings.botToken
                     (Cases.settings (String.append "  " (String.append Cases.token " ")) ""))
                <> Settings.botToken
                     (Cases.settings (String.append "  " (String.append Cases.token " ")) ""))
    by (vm_compute; discriminate).
  split; [exact Hne|]. split; [reflexivity|]. split; [|split].
  - apply (proj1 (proj2 (proj2 (resetBot_token_is_stable Cases.white Cases.saving
             (Cases.settings (String.append "  " (String.append Cases.token " ")) "")
             []))) Hne).
  - apply (proj1 (proj2 (proj2 (resetBot_token_is_stable Cases.white Cases.not_saving
             (Cases.settings (String.append "  " (String.append Cases.token " ")) "")
             []))) Hne).
  - apply (proj1 (proj2 (proj2 (proj2 (resetBot_token_is_stable Cases.white
             Cases.not_saving
             (Cases.settings (String.append "  " (String.append Cases.token " ")) "")
             [])))) []).
Defined.

Lemma start_after_binding_witness :
  let bound := Cases.settings Cases.token "42" in
  Settings.chatId bound <> "" /\
  on_start Cases.saving bound (Cases.from 42 "Ann") [] = (bound, [], [already_working]) /\
  on_start Cases.saving bound (Cases.from 7 "Eve") [] = (bound, [], []).
Proof.
  cbn zeta.
  assert (Hne : Settings.chatId (Cases.settings Cases.token "42") <> "") by discriminate.
  split; [exact Hne|]. split.
  - apply (proj1 (start_after_binding Cases.saving _ (Cases.from 42 "Ann") []) Hne).
  - apply (proj1 (start_after_binding Cases.saving _ (Cases.from 7 "Eve") []) Hne).
Defined.

Lemma start_greets_when_saved_witness :
  Settings.chatId DEFAULT_SETTINGS = "" /\
  on_start Cases.saving DEFAULT_SETTINGS (Cases.from 42 "Ann") [] =
    ({| Settings.botToken := ""; Settings.chatId := "42"; Settings.downloadPath := "" |},
     ["saved 42"], [greeting (Some "Ann")]) /\
  on_start Cases.not_saving DEFAULT_SETTINGS (Cases.from 42 "Ann") [] =
    ({| Settings.botToken := ""; Settings.chatId := "42"; Settings.downloadPath := "" |},
     [], []).
Proof.
  split; [reflexivity|]. split.
  - apply (start_greets_when_saved Cases.saving DEFAULT_SETTINGS (Cases.from 42 "Ann") []).
    reflexivity.
  - apply (start_greets_when_saved Cases.not_saving DEFAULT_SETTINGS
             (Cases.from 42 "Ann") []).
    reflexivity.
Defined.

Lemma binding_takes_effect_at_the_next_reset_witness :
  let settings' := fst (fst (on_start Cases.saving DEFAULT_SETTINGS (Cases.from 42 "Ann") [])) in
  let before := constructor Demo.app (Settings.chatId DEFAULT_SETTINGS) "/vault" "" in
  let after := constructor Demo.app (Settings.chatId settings') "/vault"
                           (Settings.downloadPath settings') in
  Settings.chatId DEFAULT_SETTINGS = "" /\
  unauthorized before (Demo.text_update 42 "/ping") = true /\
  (unauthorized after (Demo.text_update 42 "/ping") = false <->
   chatId (Demo.text_update 42 "/ping") = Some 42%Z).
Proof.
  cbn zeta. split; [reflexivity|].
  apply (binding_takes_effect_at_the_next_reset Cases.saving DEFAULT_SETTINGS 42%Z
           (Some "Ann") [] Demo.app "/vault" (Demo.text_update 42 "/ping")).
  reflexivity.
Defined.

Lemma start_loop_tries_three_times_witness :
  3 <= 5 /\
  start_loop (Cases.conflicting 1) Cases.sleeping 5 0 [] =
    (["start"; "start"], [Start_attempt; Waited 2000; Start_attempt], Some Bot_started) /\
  start_loop (Cases.conflicting 9) Cases.sleeping 5 0 [] =
    (["start"; "start"; "start"],
     [Start_attempt; Waited 2000; Start_attempt; Waited 4000; Start_attempt],
     Some Gave_up) /\
  start_loop (Cases.conflict_then_failure 1) Cases.sleeping 5 0 [] =
    (["start"; "start"], [Start_attempt; Waited 2000; Start_attempt], Some Start_failed).
Proof.
  assert (Hfuel : 3 <= 5) by lia.
  split; [exact Hfuel|].
  split; [|split].
  - apply (proj1 (start_loop_tries_three_times (Cases.conflicting 1) Cases.sleeping
                    5 [] Hfuel)).
  - apply (proj1 (start_loop_tries_three_times (Cases.conflicting 9) Cases.sleeping
                    5 [] Hfuel)).
  - apply (proj1 (start_loop_tries_three_times (Cases.conflict_then_failure 1)
                    Cases.sleeping 5 [] Hfuel)).
Defined.

(** ** Local names and vault paths *)

Lemma occurs_app (c : ascii) (s t : string) :
  occurs c (String.append s t) = occurs c s || occurs c t.
Proof.
  induction s as [|d s IH]; [reflexivity|].
  rewrite Names.append_cons. cbn [occurs]. rewrite IH. apply orb_assoc.
Qed.

Lemma replaced_char_is_gone (c r : ascii) (s : string) :
  r <> c ->
  occurs c (JS.replace_class [c] (fun _ => String r EmptyString) s) = false.
Proof.
  intros Hne. induction s as [|d s IH]; [reflexivity|].
  rewrite Names.replace_one_cons, Names.in_class_one. cbn [occurs]. rewrite IH, orb_false_r.
  destruct (Ascii.eqb_spec d c) as [->|Hd]; apply Ascii.eqb_neq; congruence.
Qed.

(** The local file name has no [/] unless the formatted time has one, so
    a remote path cannot name a file outside the download directory
    through [/]; and the path looked up in the vault never has a
    backslash. *)
Theorem local_names_are_flat (stamp vault_path download_path : string)
        (remote_path : option string) :
  (occurs "/" stamp = false ->
   occurs "/" (file_name_of stamp remote_path) = false) /\
  occurs "\" (path_in_vault_of vault_path download_path) = false.
Proof.
  split.
  - intros Hstamp. unfold file_name_of, hyphenate.
    destruct remote_path as [p|]; cbn [fmap option_fmap option_map JS.concat_opt];
      rewrite occurs_app, Hstamp; cbn [orb].
    + apply replaced_char_is_gone. discriminate.
    + reflexivity.
  - unfold path_in_vault_of. apply replaced_char_is_gone. discriminate.
Qed.

Lemma local_names_are_flat_witness :
  occurs "/" "2024-01-01-00-00-00-" = false /\
  occurs "/" (file_name_of "2024-01-01-00-00-00-" (Some "../../notes/secret.md")) = false.
Proof.
  split; [reflexivity|].
  apply (proj1 (local_names_are_flat "2024-01-01-00-00-00-" "/vault" "/vault/inbox/x"
                  (Some "../../notes/secret.md"))).
  reflexivity.
Defined.

(** ** The wildcard registration *)

Section WildcardFacts.

Context {W : Type}.
Variable moment_format : W -> string.
Variable path_join : list string -> string.
Variable fs_existsSync : string -> W -> bool.
Variable fs_mkdirSync : string -> Async W unit.

Local Abbreviation on_message_file :=
  (on_message_file moment_format path_join fs_existsSync fs_mkdirSync).
Local Abbreviation materialize :=
  (materialize moment_format path_join fs_existsSync fs_mkdirSync).


End WildcardFacts.

